(** * python-oom-demo: the memory ramp and its shutdown, verified

    A shallow embedding of [python/python-oom-demo/oom_demo.py]:
    [ramp_memory_and_fail] (the allocation loop with its 400 MB soft cap and
    its [except MemoryError] handler) and [main] (the [try / except /
    finally] around it).

    The program is effectful: it allocates, logs, annotates a span, sleeps,
    raises and exits.  It is embedded in a small state-and-exception monad
    [M]; the state holds the two locals of the ramp that the properties talk
    about ([allocations], [i]) and the chronological list of the calls the
    module makes on the outside world ([trace]).  [while True] is run with
    fuel: the third result, [Running], says that the loop is still going when
    the fuel is spent. *)

From Stdlib Require Import ZArith List String Bool Lia.
From Stdlib Require Import Floats.SpecFloat.
From Stdlib Require DecimalString.
Import ListNotations.

Local Open Scope string_scope.
Local Open Scope list_scope.
Local Open Scope Z_scope.

(** ** Values *)

(** A Python [float] is an IEEE-754 binary64 value. *)
Definition float := spec_float.

(** [0.5], the default of [OOM_SLEEP_SECONDS]. *)
Definition half : float := S754_finite false 4503599627370496 (-53).

(** [-1.0]. *)
Definition minus_one : float := S754_finite true 4503599627370496 (-52).

(** The exceptions that occur: the three the built-ins of the ramp raise,
    the interrupt, [sys.exit] and the generic failure of a library call. *)
Inductive exn :=
| MemoryError (msg : string)
| ValueError (msg : string)
| OverflowError (msg : string)
| KeyboardInterrupt
| SystemExit (code : Z)
| Exception (msg : string).

(** [str(exc)]. *)
Definition str (e : exn) : string :=
  match e with
  | MemoryError m | ValueError m | OverflowError m | Exception m => m
  | KeyboardInterrupt => ""
  | SystemExit c => DecimalString.NilZero.string_of_int (Z.to_int c)
  end.

Definition is_MemoryError (e : exn) : bool :=
  match e with MemoryError _ => true | _ => false end.

Module Level.
Inductive t := INFO | ERROR.
End Level.

(** [opentelemetry.trace.StatusCode]; a span starts [UNSET]. *)
Module StatusCode.
Inductive t := UNSET | OK | ERROR.
End StatusCode.

(** The objects [main] shuts down, under the names it binds them to. *)
Inductive component :=
| span_processor | log_processor | metric_reader
| logger_provider | meter_provider.

Inductive channel := Traces | Logs | Metrics.

(** The export channel behind each component. *)
Definition channel_of (c : component) : channel :=
  match c with
  | span_processor => Traces
  | log_processor | logger_provider => Logs
  | metric_reader | meter_provider => Metrics
  end.

Inductive attr := AInt (z : Z) | AFloat (f : float).

(** How a [shutdown()] call ends: what was queued reached the collector,
    or was dropped because the collector did not answer, or the call
    itself raised. *)
Inductive flush := Delivered | Dropped | Failed.

(** What the module does to the outside world, one constructor per call. *)
Inductive event :=
| Configured (what : string) (service_name : string)
| SpanStart (name : string)
| SetAttribute (key : string) (value : attr)
| LogRecord (lvl : Level.t) (msg : string) (extra : list (string * Z))
| Allocated (nbytes : Z)
| Slept (secs : float)
| RecordException (e : exn)
| SetStatus (code : StatusCode.t) (description : string)
| SpanEnd (name : string)
| Shutdown (c : component) (outcome : flush).

(** ** The host

    Everything the program does not decide: the interpreter's index range,
    whether the allocator grants a request, when an interrupt arrives,
    whether a shutdown call fails and whether an export sink answers. *)
Record Host := {
  (** [sys.maxsize] *)
  sys_maxsize : Z;
  (** [mem_grant held n]: with [held] bytes retained, [n] more are granted *)
  mem_grant : Z -> Z -> bool;
  (** [sigint t]: an interrupt is delivered during the sleep that starts
      at logical time [t] (the number of calls made so far) *)
  sigint : nat -> bool;
  (** the [shutdown()] of this component raises *)
  shutdown_fault : component -> bool;
  (** the collector behind this channel accepts what is flushed to it *)
  sink_reachable : channel -> bool
}.

(** ** The monad *)

Inductive result (A : Type) :=
| Ok (a : A)
| Raise (e : exn)
| Running.
Arguments Ok {A} a.
Arguments Raise {A} e.
Arguments Running {A}.

(** A [bytearray(n)] is [n] zero bytes that nobody reads: its length. *)
Definition bytearray_t := Z.

Record State := mkState {
  allocations : list bytearray_t;
  i : Z;
  trace : list event
}.

Definition M (A : Type) := State -> result A * State.

Definition ret {A} (a : A) : M A := fun st => (Ok a, st).

Definition bind {A B} (m : M A) (k : A -> M B) : M B :=
  fun st =>
    match m st with
    | (Ok a, st') => k a st'
    | (Raise e, st') => (Raise e, st')
    | (Running, st') => (Running, st')
    end.

Notation "x <- c1 ;; c2" := (bind c1 (fun x => c2))
  (at level 61, c1 at next level, right associativity).
Notation "c1 ;; c2" := (bind c1 (fun _ => c2))
  (at level 61, right associativity).

Definition raise {A} (e : exn) : M A := fun st => (Raise e, st).

Definition emit (e : event) : M unit :=
  fun st => (Ok tt, mkState (allocations st) (i st) (trace st ++ [e])).

(** [try: body  except <handler>: ...]; the handler answers [None] for the
    exceptions its clause does not match. *)
Definition try_except {A} (body : M A) (handler : exn -> option (M A)) : M A :=
  fun st =>
    match body st with
    | (Raise e, st') =>
        match handler e with
        | Some h => h st'
        | None => (Raise e, st')
        end
    | other => other
    end.

(** [try: body  finally: fin].  [fin] runs when [body] has left, normally
    or not; what [fin] raises replaces what [body] did. *)
Definition try_finally {A} (body : M A) (fin : M unit) : M A :=
  fun st =>
    match body st with
    | (Running, st') => (Running, st')
    | (r, st') =>
        match fin st' with
        | (Ok _, st'') => (r, st'')
        | (Raise e, st'') => (Raise e, st'')
        | (Running, st'') => (Running, st'')
        end
    end.

(** [while True: body], for at most [fuel] iterations. *)
Fixpoint while_true (fuel : nat) (body : M unit) : M unit :=
  match fuel with
  | O => fun st => (Running, st)
  | S fuel' => body ;; while_true fuel' body
  end.

(** ** Built-ins and library calls *)

Definition bytes_held (st : State) : Z := fold_right Z.add 0 (allocations st).

Section WithHost.

Variable host : Host.

(** [bytearray(n)]. *)
Definition bytearray (n : Z) : M bytearray_t :=
  fun st =>
    if n <? 0 then (Raise (ValueError "negative count"), st)
    else if sys_maxsize host <? n then
      (Raise (OverflowError "cannot fit 'int' into an index-sized integer"), st)
    else if mem_grant host (bytes_held st) n then (Ok n, st)
    else (Raise (MemoryError ""), st).

(** The argument check of [time.sleep]: the duration is converted to
    nanoseconds in a signed 64-bit integer, then refused if negative. *)
Definition sleep_rejects (secs : float) : option exn :=
  match secs with
  | S754_nan => Some (ValueError "Invalid value NaN (not a number)")
  | S754_infinity _ =>
      Some (OverflowError "timestamp too large to convert to C PyTime_t")
  | S754_zero _ => None
  | S754_finite sgn m e =>
      if 2 ^ 63 * 2 ^ Z.max (- e) 0 <=? Z.pos m * 10 ^ 9 * 2 ^ Z.max e 0 then
        Some (OverflowError "timestamp too large to convert to C PyTime_t")
      else if sgn then Some (ValueError "sleep length must be non-negative")
      else None
  end.

(** [time.sleep(secs)]. *)
Definition time_sleep (secs : float) : M unit :=
  fun st =>
    match sleep_rejects secs with
    | Some e => (Raise e, st)
    | None =>
        if sigint host (List.length (trace st)) then (Raise KeyboardInterrupt, st)
        else emit (Slept secs) st
    end.

(** [logger.info(msg, extra=...)] and [logger.exception(msg)]: a record is
    handed to the logging bridge, which queues it. *)
Definition logger_info (msg : string) (extra : list (string * Z)) : M unit :=
  emit (LogRecord Level.INFO msg extra).

Definition logger_exception (msg : string) : M unit :=
  emit (LogRecord Level.ERROR msg []).

Definition set_attribute (key : string) (v : attr) : M unit :=
  emit (SetAttribute key v).

Definition record_exception (e : exn) : M unit := emit (RecordException e).

Definition set_status (code : StatusCode.t) (description : string) : M unit :=
  emit (SetStatus code description).

(** [with tracer.start_as_current_span(name) as span: body]. *)
Definition with_span {A} (name : string) (body : M A) : M A :=
  emit (SpanStart name) ;; try_finally body (emit (SpanEnd name)).

(** [<component>.shutdown()]: flushes what is queued to the sink. *)
Definition flush_outcome (c : component) : flush :=
  if shutdown_fault host c then Failed
  else if sink_reachable host (channel_of c) then Delivered else Dropped.

Definition shutdown (c : component) : M unit :=
  emit (Shutdown c (flush_outcome c)) ;;
  if shutdown_fault host c then raise (Exception "shutdown failed")
  else ret tt.

(** [sys.exit(code)]. *)
Definition sys_exit {A} (code : Z) : M A := raise (SystemExit code).

(** ** [ramp_memory_and_fail] *)

(** Truth value of an [int] and of an [int]-or-[None]. *)
Definition truthy (z : Z) : bool := negb (z =? 0).

Definition truthy_opt (o : option Z) : bool :=
  match o with Some z => truthy z | None => false end.

(** [f"{max_bytes / (1024 * 1024):.1f}"]: the quotient rounded to one
    decimal, ties to even.  (The quotient is exact in binary64 for every
    [max_bytes] below 2^53 in size.) *)
Definition format_mb_1f (max_bytes : Z) : string :=
  let n := Z.abs max_bytes * 10 in
  let q := n / (1024 * 1024) in
  let r := n mod (1024 * 1024) in
  let tenths :=
    if (1024 * 1024 <? 2 * r) || ((2 * r =? 1024 * 1024) && Z.odd q)
    then q + 1 else q in
  ((if (max_bytes <? 0)%Z then "-" else "")
   ++ DecimalString.NilZero.string_of_int (Z.to_int (tenths / 10))
   ++ "."
   ++ DecimalString.NilZero.string_of_int (Z.to_int (tenths mod 10)))%string.

Definition cap_message (max_bytes : Z) : string :=
  ("Reached demo cap of " ++ format_mb_1f max_bytes ++ " MB")%string.

(** [max_bytes and (i * chunk_bytes) >= max_bytes]. *)
Definition cap_reached (max_bytes : option Z) (allocated : Z) : bool :=
  match max_bytes with
  | Some m => truthy m && (m <=? allocated)
  | None => false
  end.

Definition append_allocation (buf : bytearray_t) : M unit :=
  fun st =>
    (Ok tt, mkState (allocations st ++ [buf]) (i st) (trace st ++ [Allocated buf])).

Definition set_i (v : Z) : M unit :=
  fun st => (Ok tt, mkState (allocations st) v (trace st)).

Definition get_i : M Z := fun st => (Ok (i st), st).

Definition clear_allocations : M unit :=
  fun st => (Ok tt, mkState [] (i st) (trace st)).

Section Ramp.

Variable max_bytes : option Z.
Variable chunk_mb : Z.
Variable chunk_bytes : Z.
Variable sleep_seconds : float.

(** The body of [while True] (lines 123-137). *)
Definition ramp_iteration : M unit :=
  buf <- bytearray chunk_bytes ;;
  append_allocation buf ;;
  n <- get_i ;;
  set_i (n + 1) ;;
  n <- get_i ;;
  logger_info "Allocated chunk"
    [("chunk_index", n); ("allocated_mb", n * chunk_mb)] ;;
  (if cap_reached max_bytes (n * chunk_bytes) then
     match max_bytes with
     | Some m => raise (MemoryError (cap_message m))
     | None => ret tt
     end
   else ret tt) ;;
  time_sleep sleep_seconds.

(** The body of [try] (lines 121-137). *)
Definition ramp_loop (fuel : nat) : M unit :=
  set_i 0 ;; while_true fuel ramp_iteration.

(** The clause [except MemoryError as exc] (lines 139-144). *)
Definition on_memory_error (exc : exn) : option (M unit) :=
  if is_MemoryError exc then
    Some (logger_exception "MemoryError triggered; demo complete" ;;
          record_exception exc ;;
          set_status StatusCode.ERROR (str exc) ;;
          raise exc)
  else None.

(** The [try] statement (lines 120-144). *)
Definition ramp_try (fuel : nat) : M unit :=
  try_except (ramp_loop fuel) on_memory_error.

(** The [with] statement (lines 111-144). *)
Definition ramp_span (fuel : nat) : M unit :=
  with_span "oom-demo"
    (set_attribute "demo.chunk_mb" (AInt chunk_mb) ;;
     set_attribute "demo.sleep_seconds" (AFloat sleep_seconds) ;;
     (match max_bytes with
      | Some m => if truthy m then set_attribute "demo.max_bytes" (AInt m)
                  else ret tt
      | None => ret tt
      end) ;;
     logger_info "Starting memory ramp" [("chunk_mb", chunk_mb)] ;;
     ramp_try fuel).

End Ramp.

Definition max_mb_env : Z := 400.

Definition ramp_memory_and_fail
    (chunk_mb : Z) (sleep_seconds : float) (fuel : nat) : M unit :=
  clear_allocations ;;
  let chunk_bytes := chunk_mb * 1024 * 1024 in
  let max_bytes :=
    if truthy max_mb_env then Some (max_mb_env * 1024 * 1024) else None in
  ramp_span max_bytes chunk_mb chunk_bytes sleep_seconds fuel.

(** ** [main] *)

(** The environment, with the two numeric variables already read by
    [int(...)] and [float(...)]. *)
Record Env := {
  OTEL_SERVICE_NAME : option string;
  OOM_CHUNK_MB : option Z;
  OOM_SLEEP_SECONDS : option float
}.

Definition DEFAULT_SERVICE_NAME : string := "python-oom-demo".

(** [os.getenv("OTEL_SERVICE_NAME") or DEFAULT_SERVICE_NAME]. *)
Definition configure_resource (env : Env) : string :=
  match OTEL_SERVICE_NAME env with
  | Some "" | None => DEFAULT_SERVICE_NAME
  | Some name => name
  end.

Definition configure_tracing (resource : string) : M component :=
  emit (Configured "tracing" resource) ;; ret span_processor.

Definition configure_logging (resource : string) : M (component * component) :=
  emit (Configured "logging" resource) ;; ret (logger_provider, log_processor).

Definition configure_metrics (resource : string) : M (component * component) :=
  emit (Configured "metrics" resource) ;; ret (meter_provider, metric_reader).

Definition configure_system_metrics : M unit :=
  emit (Configured "system_metrics" "").

(** The [finally] block of [main] (lines 164-170). *)
Definition flush_telemetry (sp lp mr lgp mtp : component) : M unit :=
  shutdown sp ;; shutdown lp ;; shutdown mr ;; shutdown lgp ;; shutdown mtp.

(** The clause [except MemoryError] of [main]. *)
Definition on_ramp_failure (exc : exn) : option (M unit) :=
  if is_MemoryError exc then Some (sys_exit 1) else None.

(** The [try] statement of [main] (lines 159-170) around any body. *)
Definition guarded (sp lp mr lgp mtp : component) (body : M unit) : M unit :=
  try_finally (try_except body on_ramp_failure)
              (flush_telemetry sp lp mr lgp mtp).

Definition main (env : Env) (fuel : nat) : M unit :=
  let resource := configure_resource env in
  sp <- configure_tracing resource ;;
  lg <- configure_logging resource ;;
  mt <- configure_metrics resource ;;
  configure_system_metrics ;;
  let chunk_mb := match OOM_CHUNK_MB env with Some v => v | None => 10 end in
  let sleep_seconds :=
    match OOM_SLEEP_SECONDS env with Some v => v | None => half end in
  guarded sp (snd lg) (snd mt) (fst lg) (fst mt)
    (ramp_memory_and_fail chunk_mb sleep_seconds fuel).

End WithHost.

(** The status with which the interpreter leaves, once [main] is over. *)
Definition exit_status (r : result unit) : option Z :=
  match r with
  | Ok _ => Some 0
  | Raise (SystemExit code) => Some code
  | Raise KeyboardInterrupt => Some 130
  | Raise _ => Some 1
  | Running => None
  end.

Definition initial : State := mkState [] 0 [].

(** ** What is observed of a run *)

Definition add_events (st : State) (evs : list event) : State :=
  mkState (allocations st) (i st) (trace st ++ evs).

Definition count (p : event -> bool) (tr : list event) : nat :=
  List.length (filter p tr).

Definition is_chunk_log (e : event) : bool :=
  match e with
  | LogRecord Level.INFO msg _ => String.eqb msg "Allocated chunk"
  | _ => false
  end.


Definition is_error_log (e : event) : bool :=
  match e with LogRecord Level.ERROR _ _ => true | _ => false end.

Definition is_span_start (e : event) : bool :=
  match e with SpanStart _ => true | _ => false end.

Definition is_set_status (e : event) : bool :=
  match e with SetStatus _ _ => true | _ => false end.

Definition is_record_exception (e : event) : bool :=
  match e with RecordException _ => true | _ => false end.

(** The status of the span: the last one set, [UNSET] when none was. *)
Definition span_status (tr : list event) : StatusCode.t * string :=
  fold_left
    (fun acc e => match e with SetStatus c d => (c, d) | _ => acc end)
    tr (StatusCode.UNSET, "").

(** The components whose [shutdown()] was called, in call order. *)
Definition shutdown_calls (tr : list event) : list component :=
  flat_map (fun e => match e with Shutdown c _ => [c] | _ => [] end) tr.

(** Index of the first event that satisfies [p]. *)
Fixpoint position (p : event -> bool) (tr : list event) : option nat :=
  match tr with
  | [] => None
  | e :: tr' =>
      if p e then Some O
      else match position p tr' with Some k => Some (S k) | None => None end
  end.

(** ** The ramp, iteration by iteration *)

Definition ceil_div (a b : Z) : Z := (a + b - 1) / b.

Definition chunk_log (chunk_mb n : Z) : event :=
  LogRecord Level.INFO "Allocated chunk"
    [("chunk_index", n); ("allocated_mb", n * chunk_mb)].

(** The calls of one iteration that runs to its end. *)
Definition iteration_events
    (chunk_mb chunk_bytes : Z) (secs : float) (n : Z) : list event :=
  [Allocated chunk_bytes; chunk_log chunk_mb n; Slept secs].

(** The calls of iterations [from + 1 .. from + k], all run to their end. *)
Fixpoint ramp_events
    (chunk_mb chunk_bytes : Z) (secs : float) (from : Z) (k : nat) : list event :=
  match k with
  | O => []
  | S k' =>
      iteration_events chunk_mb chunk_bytes secs (from + 1)
      ++ ramp_events chunk_mb chunk_bytes secs (from + 1) k'
  end.

(** The state [k] full iterations after [st]. *)
Definition steady (chunk_mb chunk_bytes : Z) (secs : float) (k : nat) (st : State)
  : State :=
  mkState (allocations st ++ repeat chunk_bytes k)
          (i st + Z.of_nat k)
          (trace st ++ ramp_events chunk_mb chunk_bytes secs (i st) k).

(** The state once the chunk of the current iteration is kept, counted and
    logged. *)
Definition grown (chunk_mb chunk_bytes : Z) (st : State) : State :=
  mkState (allocations st ++ [chunk_bytes]) (i st + 1)
          (trace st ++ [Allocated chunk_bytes; chunk_log chunk_mb (i st + 1)]).

(** One iteration, case by case. *)
Definition iteration_outcome (host : Host) (max_bytes : option Z)
    (chunk_mb chunk_bytes : Z) (secs : float) (st : State) : result unit * State :=
  match bytearray host chunk_bytes st with
  | (Ok _, _) =>
      let st1 := grown chunk_mb chunk_bytes st in
      match max_bytes with
      | Some m =>
          if truthy m && (m <=? i st1 * chunk_bytes)
          then (Raise (MemoryError (cap_message m)), st1)
          else time_sleep host secs st1
      | None => time_sleep host secs st1
      end
  | (Raise e, _) => (Raise e, st)
  | (Running, _) => (Running, st)
  end.

(** The calls before the loop: the span, its attributes, the first record. *)
Definition preamble (max_bytes : option Z) (chunk_mb : Z) (secs : float)
  : list event :=
  [SpanStart "oom-demo";
   SetAttribute "demo.chunk_mb" (AInt chunk_mb);
   SetAttribute "demo.sleep_seconds" (AFloat secs)]
  ++ match max_bytes with
     | Some m => if truthy m then [SetAttribute "demo.max_bytes" (AInt m)] else []
     | None => []
     end
  ++ [LogRecord Level.INFO "Starting memory ramp" [("chunk_mb", chunk_mb)]].

(** The calls of the clause [except MemoryError as exc]. *)
Definition failure_events (exc : exn) : list event :=
  [LogRecord Level.ERROR "MemoryError triggered; demo complete" [];
   RecordException exc;
   SetStatus StatusCode.ERROR (str exc)].

(** The cap of the program, in bytes. *)
Definition cap_bytes : Z := max_mb_env * 1024 * 1024.

(** A body that always leaves, normally or by raising. *)
Definition leaves (body : M unit) : Prop :=
  forall st, fst (body st) <> Running.

(** The exceptions that the built-ins of the ramp and an interrupt raise. *)
Definition raised_by_ramp (e : exn) : Prop :=
  match e with
  | MemoryError _ | ValueError _ | OverflowError _ | KeyboardInterrupt => True
  | SystemExit _ | Exception _ => False
  end.

(** ** Assumptions on the host *)

(** No interrupt arrives. *)
Definition calm (host : Host) : Prop := forall t, sigint host t = false.

(** Chunks of [chunk_bytes] are granted as long as less than [cap] bytes
    are held. *)
Definition roomy (host : Host) (chunk_bytes cap : Z) : Prop :=
  chunk_bytes <= sys_maxsize host /\
  forall held, 0 <= held < cap -> mem_grant host held chunk_bytes = true.


(** ** The shutdown sequence *)

Definition shutdown_order : list component :=
  [span_processor; log_processor; metric_reader; logger_provider; meter_provider].

(** The calls that are made of a list of [shutdown()] calls in a row: up to
    and including the first that raises. *)
Fixpoint attempted (host : Host) (cs : list component) : list component :=
  match cs with
  | [] => []
  | c :: cs' => c :: (if shutdown_fault host c then [] else attempted host cs')
  end.

Definition no_fault (host : Host) : Prop :=
  forall c, shutdown_fault host c = false.

(** What [main] has read from the environment. *)
Definition chunk_mb_of (env : Env) : Z :=
  match OOM_CHUNK_MB env with Some v => v | None => 10 end.

Definition sleep_seconds_of (env : Env) : float :=
  match OOM_SLEEP_SECONDS env with Some v => v | None => half end.

Definition bootstrap_events (env : Env) : list event :=
  [Configured "tracing" (configure_resource env);
   Configured "logging" (configure_resource env);
   Configured "metrics" (configure_resource env);
   Configured "system_metrics" ""].

(** The ramp as [main] calls it. *)
Definition ramp_of_main (host : Host) (env : Env) (fuel : nat) : M unit :=
  ramp_memory_and_fail host (chunk_mb_of env) (sleep_seconds_of env) fuel.

(** ** The function and [main] around the loop *)

(** The state in which the loop starts. *)
Definition loop_entry (chunk_mb : Z) (secs : float) (st : State) : State :=
  mkState [] 0 (trace st ++ preamble (Some cap_bytes) chunk_mb secs).

(** What the [except] clause and the end of the [with] block make of the
    way the loop ended. *)
Definition finish_ramp (p : result unit * State) : result unit * State :=
  match p with
  | (Running, st') => (Running, st')
  | (Ok u, st') => (Ok u, add_events st' [SpanEnd "oom-demo"])
  | (Raise e, st') =>
      if is_MemoryError e
      then (Raise e, add_events st' (failure_events e ++ [SpanEnd "oom-demo"]))
      else (Raise e, add_events st' [SpanEnd "oom-demo"])
  end.

(** What the [except MemoryError] clause of [main] makes of its body. *)
Definition after_except (p : result unit * State) : result unit * State :=
  match p with
  | (Raise e, st') =>
      if is_MemoryError e then (Raise (SystemExit 1), st') else (Raise e, st')
  | other => other
  end.

Definition shutdown_events (host : Host) (cs : list component) : list event :=
  map (fun c => Shutdown c (flush_outcome host c)) (attempted host cs).

(** What the [finally] block of [main] makes of what came before. *)
Definition after_finally (host : Host) (p : result unit * State)
  : result unit * State :=
  match p with
  | (Running, st') => (Running, st')
  | (r, st') =>
      (if existsb (shutdown_fault host) shutdown_order
       then Raise (Exception "shutdown failed") else r,
       add_events st' (shutdown_events host shutdown_order))
  end.

(** The calls made between two states of one run. *)
Definition emitted (before after : State) : list event :=
  skipn (List.length (trace before)) (trace after).

(** ** The ramp as a state machine *)





(** ** The claims that the program does not meet, as they are stated *)


(** "First the span, then the log": the exception event and the error
    status both come before the record at error severity. *)
Definition span_recorded_before_log (tr : list event) : Prop :=
  exists a b c,
    position is_record_exception tr = Some a /\
    position is_set_status tr = Some b /\
    position is_error_log tr = Some c /\
    (a < c)%nat /\ (b < c)%nat.

(** [c'] comes after [c] in the shutdown order. *)
Definition later (c c' : component) : Prop :=
  exists pre mid post, shutdown_order = pre ++ c :: mid ++ c' :: post.

(** "Collect and continue": whenever a shutdown call that raises was made,
    every later one is made too. *)
Definition collect_and_continue (host : Host) (tr : list event) : Prop :=
  forall c, shutdown_fault host c = true -> In c (shutdown_calls tr) ->
  forall c', later c c' -> In c' (shutdown_calls tr).


(** "Always the cap failure": whatever the sleep interval, the ramp ends
    in [MemoryError]. *)
Definition always_cap_failure (host : Host) (chunk_mb : Z) (fuel : nat) : Prop :=
  forall secs, exists m,
    fst (ramp_memory_and_fail host chunk_mb secs fuel initial)
    = Raise (MemoryError m).

(** ** More observations *)

Definition is_span_end (e : event) : bool :=
  match e with SpanEnd _ => true | _ => false end.

Definition is_allocated (e : event) : bool :=
  match e with Allocated _ => true | _ => false end.

Definition is_slept (e : event) : bool :=
  match e with Slept _ => true | _ => false end.

(** The calls of an iteration that kept and logged chunk [k + 1] and was
    left before its sleep. *)
Definition last_chunk (chunk_mb chunk_bytes : Z) (k : nat) : list event :=
  [Allocated chunk_bytes; chunk_log chunk_mb (Z.of_nat k + 1)].

(** The calls with which the function leaves: those of the handler when it
    takes the exception, then the end of the span. *)
Definition leaving (r : result unit) : list event :=
  match r with
  | Running => []
  | Raise e =>
      (if is_MemoryError e then failure_events e else []) ++ [SpanEnd "oom-demo"]
  | Ok _ => [SpanEnd "oom-demo"]
  end.

(** The "Allocated chunk" records with indices [from + 1 .. from + k]. *)
Definition chunk_logs_from (chunk_mb from : Z) (k : nat) : list event :=
  map (fun j => chunk_log chunk_mb (from + Z.of_nat j)) (seq 1 k).

(** ** Hosts and environments used as examples *)

(** A host with memory to spare, no interrupt, no fault, sinks up. *)
Definition quiet_host : Host :=
  {| sys_maxsize := 2 ^ 63 - 1;
     mem_grant := fun _ _ => true;
     sigint := fun _ => false;
     shutdown_fault := fun _ => false;
     sink_reachable := fun _ => true |}.

(** The same machine with every collector down. *)
Definition offline_host : Host :=
  {| sys_maxsize := 2 ^ 63 - 1;
     mem_grant := fun _ _ => true;
     sigint := fun _ => false;
     shutdown_fault := fun _ => false;
     sink_reachable := fun _ => false |}.

(** The same machine where shutting the trace channel down raises. *)
Definition faulty_host : Host :=
  {| sys_maxsize := 2 ^ 63 - 1;
     mem_grant := fun _ _ => true;
     sigint := fun _ => false;
     shutdown_fault :=
       fun c => match c with span_processor => true | _ => false end;
     sink_reachable := fun _ => true |}.

Definition default_env : Env :=
  {| OTEL_SERVICE_NAME := None; OOM_CHUNK_MB := None; OOM_SLEEP_SECONDS := None |}.

Definition env_with (chunk_mb : Z) (secs : float) : Env :=
  {| OTEL_SERVICE_NAME := None;
     OOM_CHUNK_MB := Some chunk_mb;
     OOM_SLEEP_SECONDS := Some secs |}.

(** ** Basic facts *)

Lemma count_app p (a b : list event) :
  count p (a ++ b) = (count p a + count p b)%nat.
Proof. unfold count. now rewrite filter_app, length_app. Qed.

Lemma span_status_app (a b : list event) :
  span_status (a ++ b) =
  fold_left (fun acc e => match e with SetStatus c d => (c, d) | _ => acc end)
            b (span_status a).
Proof. unfold span_status. now rewrite fold_left_app. Qed.

Lemma shutdown_calls_app (a b : list event) :
  shutdown_calls (a ++ b) = shutdown_calls a ++ shutdown_calls b.
Proof. unfold shutdown_calls. now rewrite flat_map_app. Qed.

(** Running [a + b] iterations is running [a], then [b] more if the loop is
    still going. *)
Lemma while_true_split (a b : nat) (body : M unit) (st : State) :
  leaves body ->
  while_true (a + b) body st =
  match while_true a body st with
  | (Running, st') => while_true b body st'
  | other => other
  end.
Proof.
  intros Hbody. revert st. induction a as [|a IH]; intros st; simpl.
  - reflexivity.
  - unfold bind. specialize (Hbody st).
    destruct (body st) as [[[]|e|] st1];
      [apply IH | reflexivity | now contradiction Hbody].
Qed.

(** More fuel does not change a loop that has already raised. *)
Lemma while_true_raise_stable (a b : nat) (body : M unit) (st st' : State) e :
  while_true a body st = (Raise e, st') ->
  while_true (a + b) body st = (Raise e, st').
Proof.
  revert st. induction a as [|a IH]; intros st; simpl.
  - discriminate.
  - unfold bind. destruct (body st) as [[[]|e1|] st1]; auto; discriminate.
Qed.

(** [while True] has no [break]: it never ends normally. *)
Lemma while_true_never_ok (fuel : nat) (body : M unit) (st : State) :
  forall u, fst (while_true fuel body st) <> Ok u.
Proof.
  revert st. induction fuel as [|fuel IH]; intros st u; simpl.
  - discriminate.
  - unfold bind. destruct (body st) as [[[]|e|] st1]; simpl; try discriminate.
    apply IH.
Qed.

(** The loop body is [iteration_outcome]. *)
Lemma ramp_iteration_eq host max_bytes chunk_mb chunk_bytes secs st :
  ramp_iteration host max_bytes chunk_mb chunk_bytes secs st =
  iteration_outcome host max_bytes chunk_mb chunk_bytes secs st.
Proof.
  unfold ramp_iteration, iteration_outcome, bind, bytearray.
  destruct (chunk_bytes <? 0); [reflexivity|].
  destruct (sys_maxsize host <? chunk_bytes); [reflexivity|].
  destruct (mem_grant host (bytes_held st) chunk_bytes); [|reflexivity].
  unfold append_allocation, get_i, set_i, logger_info, emit, grown, chunk_log.
  cbn [allocations i trace].
  rewrite <- app_assoc. cbn [app].
  unfold cap_reached.
  destruct max_bytes as [m|]; [|reflexivity].
  destruct (truthy m && (m <=? (i st + 1) * chunk_bytes)); reflexivity.
Qed.

Lemma bytes_held_app (st : State) a t c :
  bytes_held (mkState (allocations st ++ [c]) a t) = bytes_held st + c.
Proof.
  unfold bytes_held. cbn [allocations].
  induction (allocations st) as [|x l IH]; simpl; lia.
Qed.

Lemma fold_add_repeat (c : Z) (k : nat) :
  fold_right Z.add 0 (repeat c k) = Z.of_nat k * c.
Proof. induction k as [|k IH]; [reflexivity|]. cbn [repeat fold_right]. lia. Qed.

Lemma fold_add_snoc (c : Z) (k : nat) :
  fold_right Z.add 0 (repeat c k ++ [c]) = (Z.of_nat k + 1) * c.
Proof.
  rewrite fold_right_app. cbn [fold_right].
  induction k as [|k IH]; cbn [repeat fold_right]; lia.
Qed.

Lemma repeat_snoc (c : Z) (k : nat) : repeat c k ++ [c] = repeat c (S k).
Proof. induction k as [|k IH]; [reflexivity|]. cbn [repeat app]. now rewrite IH. Qed.

Lemma ceil_div_bounds (cap chunk : Z) :
  0 < cap -> 0 < chunk ->
  1 <= ceil_div cap chunk /\
  (ceil_div cap chunk - 1) * chunk < cap <= ceil_div cap chunk * chunk.
Proof.
  intros Hcap Hchunk. unfold ceil_div.
  pose proof (Z.div_mod (cap + chunk - 1) chunk ltac:(lia)) as Hdm.
  pose proof (Z.mod_pos_bound (cap + chunk - 1) chunk Hchunk) as Hr.
  set (n := (cap + chunk - 1) / chunk) in *.
  assert (1 <= n) by nia.
  split; [assumption|]. nia.
Qed.

Section Iterations.

Variable host : Host.
Variable cap : Z.
Variable chunk_mb chunk_bytes : Z.
Variable secs : float.

Hypothesis cap_pos : 0 < cap.
Hypothesis chunk_nonneg : 0 <= chunk_bytes.
Hypothesis sleep_ok : sleep_rejects secs = None.
Hypothesis host_calm : calm host.
Hypothesis host_roomy : roomy host chunk_bytes cap.

Let body := ramp_iteration host (Some cap) chunk_mb chunk_bytes secs.

(** Below the cap an iteration runs to its end. *)
Lemma iteration_below_cap (st : State) :
  bytes_held st = i st * chunk_bytes -> 0 <= i st ->
  (i st + 1) * chunk_bytes < cap ->
  body st = (Ok tt, steady chunk_mb chunk_bytes secs 1 st).
Proof.
  intros Hheld Hi Hbelow. unfold body. rewrite ramp_iteration_eq.
  destruct host_roomy as [Hmax Hgrant].
  unfold iteration_outcome, bytearray.
  replace (chunk_bytes <? 0) with false by (symmetry; apply Z.ltb_ge; lia).
  replace (sys_maxsize host <? chunk_bytes) with false
    by (symmetry; apply Z.ltb_ge; lia).
  rewrite Hgrant by nia.
  cbn [grown i].
  replace (cap <=? (i st + 1) * chunk_bytes) with false
    by (symmetry; apply Z.leb_gt; lia).
  rewrite andb_false_r.
  unfold time_sleep. rewrite sleep_ok, host_calm.
  unfold emit, steady, grown. cbn [allocations i trace repeat ramp_events iteration_events].
  rewrite <- app_assoc, app_nil_r. reflexivity.
Qed.

(** The iteration whose chunk reaches the cap raises after the chunk is
    kept and logged, and before any sleep. *)
Lemma iteration_reaches_cap (st : State) :
  bytes_held st = i st * chunk_bytes -> 0 <= i st ->
  i st * chunk_bytes < cap <= (i st + 1) * chunk_bytes ->
  body st = (Raise (MemoryError (cap_message cap)), grown chunk_mb chunk_bytes st).
Proof.
  intros Hheld Hi Hreach. unfold body. rewrite ramp_iteration_eq.
  destruct host_roomy as [Hmax Hgrant].
  unfold iteration_outcome, bytearray.
  replace (chunk_bytes <? 0) with false by (symmetry; apply Z.ltb_ge; lia).
  replace (sys_maxsize host <? chunk_bytes) with false
    by (symmetry; apply Z.ltb_ge; lia).
  rewrite Hgrant by nia.
  cbn [grown i].
  replace (cap <=? (i st + 1) * chunk_bytes) with true
    by (symmetry; apply Z.leb_le; lia).
  replace (truthy cap) with true
    by (symmetry; unfold truthy; apply negb_true_iff, Z.eqb_neq; lia).
  reflexivity.
Qed.

Lemma steady_succ (k : nat) (st : State) :
  steady chunk_mb chunk_bytes secs k (steady chunk_mb chunk_bytes secs 1 st)
  = steady chunk_mb chunk_bytes secs (S k) st.
Proof.
  unfold steady. cbn [allocations i trace repeat ramp_events].
  change (Z.of_nat 1) with 1.
  rewrite app_nil_r, <- !app_assoc. cbn [app].
  f_equal. lia.
Qed.

(** As long as the cap is not reached the loop keeps going, one chunk, one
    record and one sleep per iteration. *)
Lemma loop_below_cap (k : nat) : forall st,
  bytes_held st = i st * chunk_bytes -> 0 <= i st ->
  (i st + Z.of_nat k) * chunk_bytes < cap ->
  while_true k body st = (Running, steady chunk_mb chunk_bytes secs k st).
Proof.
  induction k as [|k IH]; intros st Hheld Hi Hbelow.
  - simpl. unfold steady. cbn [repeat ramp_events].
    rewrite !app_nil_r, Z.add_0_r. now destruct st.
  - cbn [while_true]. unfold bind.
    rewrite iteration_below_cap by (try assumption; nia).
    rewrite IH.
    + now rewrite steady_succ.
    + unfold steady. cbn [i repeat]. rewrite bytes_held_app. lia.
    + unfold steady. cbn [i]. lia.
    + unfold steady. cbn [i]. nia.
Qed.

(** The iteration whose chunk reaches the cap ends the loop. *)
Lemma loop_reaches_cap (k : nat) : forall st,
  bytes_held st = i st * chunk_bytes -> 0 <= i st ->
  (i st + Z.of_nat k) * chunk_bytes < cap <= (i st + Z.of_nat k + 1) * chunk_bytes ->
  while_true (S k) body st =
  (Raise (MemoryError (cap_message cap)),
   grown chunk_mb chunk_bytes (steady chunk_mb chunk_bytes secs k st)).
Proof.
  induction k as [|k IH]; intros st Hheld Hi Hreach.
  - cbn [while_true]. unfold bind.
    rewrite iteration_reaches_cap by (try assumption; lia).
    unfold steady. cbn [repeat ramp_events].
    rewrite !app_nil_r, Z.add_0_r. now destruct st.
  - change (while_true (S (S k)) body st)
      with ((body ;; while_true (S k) body) st).
    unfold bind.
    rewrite iteration_below_cap by (try assumption; nia).
    rewrite IH.
    + now rewrite steady_succ.
    + unfold steady. cbn [i repeat]. rewrite bytes_held_app. lia.
    + unfold steady. cbn [i]. lia.
    + unfold steady. cbn [i]. lia.
Qed.

End Iterations.

(** C1. For every cap and every chunk size above zero, on a host that
    grants the chunks and does not interrupt, the ramp keeps exactly
    [ceil (cap / chunk_bytes)] chunks and then raises its cap failure: with
    less fuel than that the loop is still going, one chunk, one record and
    one sleep per iteration; with that much or more, the last iteration
    keeps and logs its chunk and raises before any sleep, at the first
    chunk with [i * chunk_bytes >= cap] (equality included), and the bytes
    held then lie in [cap, cap + chunk_bytes). *)
Theorem ramp_fails_after_ceil_chunks
    host (cap chunk_mb chunk_bytes : Z) (secs : float) (st : State) :
  0 < cap -> 0 < chunk_bytes ->
  allocations st = [] ->
  sleep_rejects secs = None ->
  calm host -> roomy host chunk_bytes cap ->
  let n := ceil_div cap chunk_bytes in
  (forall fuel, (fuel < Z.to_nat n)%nat ->
     ramp_loop host (Some cap) chunk_mb chunk_bytes secs fuel st =
     (Running,
      mkState (repeat chunk_bytes fuel) (Z.of_nat fuel)
              (trace st ++ ramp_events chunk_mb chunk_bytes secs 0 fuel)))
  /\
  (forall fuel, (Z.to_nat n <= fuel)%nat ->
     exists st',
       ramp_loop host (Some cap) chunk_mb chunk_bytes secs fuel st =
       (Raise (MemoryError (cap_message cap)), st') /\
       i st' = n /\
       allocations st' = repeat chunk_bytes (Z.to_nat n) /\
       cap <= bytes_held st' < cap + chunk_bytes /\
       trace st' =
       trace st
       ++ ramp_events chunk_mb chunk_bytes secs 0 (Z.to_nat n - 1)
       ++ [Allocated chunk_bytes; chunk_log chunk_mb n]).
Proof.
  intros Hcap Hchunk Hempty Hsleep Hcalm Hroomy n.
  destruct (ceil_div_bounds cap chunk_bytes Hcap Hchunk) as [Hn [Hlo Hhi]].
  fold n in Hn, Hlo, Hhi.
  set (st0 := mkState (allocations st) 0 (trace st)).
  assert (Hloop : forall fuel,
    ramp_loop host (Some cap) chunk_mb chunk_bytes secs fuel st =
    while_true fuel (ramp_iteration host (Some cap) chunk_mb chunk_bytes secs) st0)
    by reflexivity.
  assert (Hheld0 : bytes_held st0 = i st0 * chunk_bytes)
    by (unfold bytes_held, st0; cbn [allocations i]; now rewrite Hempty).
  split.
  - intros fuel Hfuel. rewrite Hloop.
    rewrite (loop_below_cap host cap chunk_mb chunk_bytes secs
               Hcap (Z.lt_le_incl _ _ Hchunk) Hsleep Hcalm Hroomy fuel st0 Hheld0).
    + unfold steady, st0. cbn [allocations i trace]. now rewrite Hempty.
    + cbn. lia.
    + cbn [st0 i]. nia.
  - intros fuel Hfuel.
    set (k := (Z.to_nat n - 1)%nat).
    assert (Hk : Z.of_nat k = n - 1) by (unfold k; lia).
    replace fuel with (S k + (fuel - S k))%nat by (unfold k; lia).
    exists (grown chunk_mb chunk_bytes (steady chunk_mb chunk_bytes secs k st0)).
    split.
    { rewrite Hloop. apply while_true_raise_stable.
      apply (loop_reaches_cap host cap chunk_mb chunk_bytes secs
               Hcap (Z.lt_le_incl _ _ Hchunk) Hsleep Hcalm Hroomy k st0 Hheld0).
      - cbn. lia.
      - cbn [st0 i]. rewrite Hk. split; [lia|].
        replace (0 + (n - 1) + 1) with n by lia. lia. }
    unfold grown, steady, st0, bytes_held.
    cbn [allocations i trace]. rewrite Hempty. cbn [app].
    rewrite fold_add_snoc, Hk.
    replace (Z.to_nat n) with (S k) by (unfold k; lia).
    rewrite repeat_snoc, <- app_assoc.
    replace (0 + (n - 1) + 1) with n by lia.
    replace (n - 1 + 1) with n by lia.
    repeat split; try reflexivity; nia.
Qed.

(** ** The loop on any host *)

(** A loop invariant [P] with exit condition [Q]. *)
Lemma while_true_rule (body : M unit)
    (P : State -> Prop) (Q : result unit -> State -> Prop) :
  (forall st, P st -> Q Running st) ->
  (forall st, P st ->
     match body st with
     | (Ok _, st') => P st'
     | (r, st') => Q r st'
     end) ->
  forall fuel st, P st -> Q (fst (while_true fuel body st)) (snd (while_true fuel body st)).
Proof.
  intros Hrun Hstep. induction fuel as [|fuel IH]; intros st HP.
  - now apply Hrun.
  - cbn [while_true]. unfold bind. specialize (Hstep st HP).
    destruct (body st) as [[[]|e|] st1]; auto.
Qed.

Lemma bytearray_cases host n st :
  bytearray host n st = (Ok n, st) /\ 0 <= n <= sys_maxsize host /\
    mem_grant host (bytes_held st) n = true
  \/ exists e, bytearray host n st = (Raise e, st) /\ raised_by_ramp e /\
       (is_MemoryError e = false /\ (n < 0 \/ sys_maxsize host < n)
        \/ e = MemoryError "").
Proof.
  unfold bytearray.
  destruct (n <? 0) eqn:Hneg.
  { right. eexists. repeat split. left. split; [reflexivity|].
    left. now apply Z.ltb_lt. }
  destruct (sys_maxsize host <? n) eqn:Hbig.
  { right. eexists. repeat split. left. split; [reflexivity|].
    right. now apply Z.ltb_lt. }
  destruct (mem_grant host (bytes_held st) n) eqn:Hgrant.
  - left. apply Z.ltb_ge in Hneg, Hbig. repeat split; lia.
  - right. eexists. repeat split. now right.
Qed.

Lemma sleep_rejects_kind secs e :
  sleep_rejects secs = Some e -> raised_by_ramp e /\ is_MemoryError e = false.
Proof.
  unfold sleep_rejects.
  destruct secs as [s|s| |s m x]; try discriminate.
  - intros [= <-]. now split.
  - intros [= <-]. now split.
  - destruct (_ <=? _); [intros [= <-]; now split|].
    destruct s; [intros [= <-]; now split | discriminate].
Qed.

Lemma time_sleep_cases host secs st :
  time_sleep host secs st = (Ok tt, add_events st [Slept secs]) /\
    sleep_rejects secs = None /\ sigint host (List.length (trace st)) = false
  \/ exists e, time_sleep host secs st = (Raise e, st) /\ raised_by_ramp e /\
       is_MemoryError e = false /\
       (sleep_rejects secs = Some e \/
        sleep_rejects secs = None /\ e = KeyboardInterrupt).
Proof.
  unfold time_sleep.
  destruct (sleep_rejects secs) as [e|] eqn:Hrej.
  - right. exists e. destruct (sleep_rejects_kind secs e Hrej). auto.
  - destruct (sigint host (List.length (trace st))) eqn:Hint.
    + right. exists KeyboardInterrupt. repeat split. now right.
    + now left.
Qed.

(** The four ways an iteration can go: the allocation raises; the cap is
    reached; the sleep raises; the iteration runs to its end. *)
Lemma iteration_cases host max_bytes chunk_mb chunk_bytes secs st
    (T : result unit * State -> Prop) :
  (forall e, bytearray host chunk_bytes st = (Raise e, st) ->
     raised_by_ramp e ->
     is_MemoryError e = false \/ e = MemoryError "" ->
     T (Raise e, st)) ->
  (forall m, max_bytes = Some m -> truthy m = true ->
     m <= (i st + 1) * chunk_bytes ->
     bytearray host chunk_bytes st = (Ok chunk_bytes, st) ->
     T (Raise (MemoryError (cap_message m)), grown chunk_mb chunk_bytes st)) ->
  (forall e, cap_reached max_bytes ((i st + 1) * chunk_bytes) = false ->
     bytearray host chunk_bytes st = (Ok chunk_bytes, st) ->
     time_sleep host secs (grown chunk_mb chunk_bytes st) =
       (Raise e, grown chunk_mb chunk_bytes st) ->
     raised_by_ramp e -> is_MemoryError e = false ->
     T (Raise e, grown chunk_mb chunk_bytes st)) ->
  (cap_reached max_bytes ((i st + 1) * chunk_bytes) = false ->
     bytearray host chunk_bytes st = (Ok chunk_bytes, st) ->
     time_sleep host secs (grown chunk_mb chunk_bytes st) =
       (Ok tt, add_events (grown chunk_mb chunk_bytes st) [Slept secs]) ->
     T (Ok tt, add_events (grown chunk_mb chunk_bytes st) [Slept secs])) ->
  T (ramp_iteration host max_bytes chunk_mb chunk_bytes secs st).
Proof.
  intros Halloc Hcap Hsleep Hok.
  rewrite ramp_iteration_eq. unfold iteration_outcome.
  destruct (bytearray_cases host chunk_bytes st)
    as [(Hb & _) | (e & Hb & Hkind & Hmem)]; rewrite Hb;
    [|apply Halloc; auto; destruct Hmem as [[Hm _]|Hm]; auto].
  assert (Hrest : cap_reached max_bytes ((i st + 1) * chunk_bytes) = false ->
                  T (time_sleep host secs (grown chunk_mb chunk_bytes st))).
  { intros Hno.
    destruct (time_sleep_cases host secs (grown chunk_mb chunk_bytes st))
      as [(Hs & _) | (e & Hs & Hkind & Hmem & _)]; rewrite Hs.
    - now apply Hok.
    - now apply Hsleep. }
  destruct max_bytes as [m|]; [|now apply Hrest].
  cbn [grown i].
  destruct (truthy m && (m <=? (i st + 1) * chunk_bytes)) eqn:Hc.
  - apply andb_true_iff in Hc. destruct Hc as [Ht Hle].
    apply Hcap; auto. now apply Z.leb_le.
  - now apply Hrest.
Qed.

Lemma iteration_leaves host max_bytes chunk_mb chunk_bytes secs :
  leaves (ramp_iteration host max_bytes chunk_mb chunk_bytes secs).
Proof.
  intros st. apply iteration_cases; intros; discriminate.
Qed.

(** Every way the loop can stand after [fuel] iterations at most: [k] full
    iterations, none of which reached the cap, and then either the fuel is
    spent, or iteration [k + 1] raised in its allocation, at the cap, or in
    its sleep. *)
Lemma loop_exits host max_bytes chunk_mb chunk_bytes secs (fuel : nat) :
  forall st,
  let body := ramp_iteration host max_bytes chunk_mb chunk_bytes secs in
  let at_k := steady chunk_mb chunk_bytes secs in
  exists k, (k <= fuel)%nat /\
    (forall j, (1 <= j <= k)%nat ->
       cap_reached max_bytes ((i st + Z.of_nat j) * chunk_bytes) = false) /\
    ((while_true fuel body st = (Running, at_k k st) /\ k = fuel)
     \/ (exists e, while_true fuel body st = (Raise e, at_k k st) /\
           raised_by_ramp e /\
           (is_MemoryError e = false \/ e = MemoryError "") /\
           bytearray host chunk_bytes (at_k k st) = (Raise e, at_k k st))
     \/ (exists m, while_true fuel body st =
             (Raise (MemoryError (cap_message m)),
              grown chunk_mb chunk_bytes (at_k k st)) /\
           max_bytes = Some m /\ truthy m = true /\
           m <= (i st + Z.of_nat k + 1) * chunk_bytes)
     \/ (exists e, while_true fuel body st =
             (Raise e, grown chunk_mb chunk_bytes (at_k k st)) /\
           raised_by_ramp e /\ is_MemoryError e = false /\
           cap_reached max_bytes ((i st + Z.of_nat k + 1) * chunk_bytes) = false)).
Proof.
  induction fuel as [|fuel IH]; intros st body at_k.
  - exists O. split; [lia|]. split; [intros j Hj; lia|].
    left. split; [|reflexivity]. cbn [while_true]. unfold at_k, steady.
    cbn [repeat ramp_events]. rewrite !app_nil_r, Z.add_0_r. now destruct st.
  - assert (Hzero : at_k O st = st).
    { unfold at_k, steady. cbn [repeat ramp_events].
      rewrite !app_nil_r, Z.add_0_r. now destruct st. }
    cbn [while_true]. unfold bind. fold body.
    unfold body at 1 3 5 7. apply iteration_cases.
    + intros e Hb Hkind Hmem. exists O. split; [lia|].
      split; [intros j Hj; lia|].
      right; left. exists e. rewrite Hzero. auto.
    + intros m Hm Ht Hle Hb. exists O. split; [lia|]. split; [intros j Hj; lia|].
      right; right; left. exists m. rewrite Hzero, Z.add_0_r. auto.
    + intros e Hno Hb Hs Hkind Hmem. exists O. split; [lia|].
      split; [intros j Hj; lia|].
      right; right; right. exists e. rewrite Hzero, Z.add_0_r. auto.
    + intros Hno Hb Hs.
      assert (Hone : add_events (grown chunk_mb chunk_bytes st) [Slept secs]
                     = at_k 1%nat st).
      { unfold at_k, steady, add_events, grown.
        cbn [allocations i trace repeat ramp_events iteration_events].
        change (Z.of_nat 1) with 1.
        now rewrite app_nil_r, <- !app_assoc. }
      rewrite Hone.
      destruct (IH (at_k 1%nat st)) as (k & Hk & Hbelow & Hexit).
      fold body in Hexit. fold at_k in Hexit.
      unfold at_k in Hexit. rewrite steady_succ in Hexit. fold at_k in Hexit.
      assert (Hi1 : i (at_k 1%nat st) = i st + 1) by reflexivity.
      rewrite Hi1 in Hbelow, Hexit.
      exists (S k). split; [lia|]. split.
      { intros j Hj. destruct (Nat.eq_dec j 1) as [->|Hne]; [exact Hno|].
        replace (i st + Z.of_nat j) with (i st + 1 + Z.of_nat (j - 1)) by lia.
        apply Hbelow. lia. }
      replace (i st + Z.of_nat (S k) + 1) with (i st + 1 + Z.of_nat k + 1) by lia.
      destruct Hexit as [[He ->] | [He | [He | He]]]; auto.
Qed.

(** ** The function around the loop *)

Lemma preamble_cap chunk_mb secs :
  preamble (Some cap_bytes) chunk_mb secs =
  [SpanStart "oom-demo";
   SetAttribute "demo.chunk_mb" (AInt chunk_mb);
   SetAttribute "demo.sleep_seconds" (AFloat secs);
   SetAttribute "demo.max_bytes" (AInt cap_bytes);
   LogRecord Level.INFO "Starting memory ramp" [("chunk_mb", chunk_mb)]].
Proof. reflexivity. Qed.

(** [ramp_memory_and_fail] is its loop, entered after the preamble and
    finished by the handler and the end of the span. *)
Lemma ramp_memory_and_fail_eq host chunk_mb secs fuel st :
  ramp_memory_and_fail host chunk_mb secs fuel st =
  finish_ramp
    (while_true fuel
       (ramp_iteration host (Some cap_bytes) chunk_mb (chunk_mb * 1024 * 1024) secs)
       (loop_entry chunk_mb secs st)).
Proof.
  unfold ramp_memory_and_fail, ramp_span, with_span, ramp_try, ramp_loop.
  change (truthy max_mb_env) with true. cbv iota.
  change (max_mb_env * 1024 * 1024) with cap_bytes.
  change (truthy cap_bytes) with true. cbv iota.
  unfold bind at 1 2. unfold clear_allocations, emit at 1. cbn [allocations i trace].
  unfold try_finally, bind, set_attribute, logger_info, emit.
  cbn [allocations i trace].
  unfold try_except, bind, set_i. cbn [allocations i trace].
  unfold loop_entry. rewrite preamble_cap.
  rewrite <- !app_assoc. cbn [app].
  match goal with |- context [while_true fuel ?b ?s] =>
    destruct (while_true fuel b s) as [[[]|e|] st'] end; cbn [finish_ramp].
  - reflexivity.
  - unfold on_memory_error. destruct (is_MemoryError e).
    + unfold bind, logger_exception, record_exception, set_status, emit, raise,
        add_events, failure_events.
      cbn [allocations i trace]. rewrite <- !app_assoc. reflexivity.
    + reflexivity.
  - reflexivity.
Qed.

(** ** [main] around the function *)

Lemma flush_telemetry_eq host st :
  flush_telemetry host span_processor log_processor metric_reader
                  logger_provider meter_provider st =
  (if existsb (shutdown_fault host) shutdown_order
   then Raise (Exception "shutdown failed") else Ok tt,
   add_events st (shutdown_events host shutdown_order)).
Proof.
  unfold flush_telemetry, shutdown, shutdown_events, shutdown_order,
    bind, emit, raise, ret, add_events.
  cbn [attempted existsb map allocations i trace].
  destruct (shutdown_fault host span_processor); cbn [orb map app];
    [reflexivity|].
  destruct (shutdown_fault host log_processor);
    cbn [orb map app allocations i trace]; rewrite <- ?app_assoc;
    [reflexivity|].
  destruct (shutdown_fault host metric_reader);
    cbn [orb map app allocations i trace]; rewrite <- ?app_assoc;
    [reflexivity|].
  destruct (shutdown_fault host logger_provider);
    cbn [orb map app allocations i trace]; rewrite <- ?app_assoc;
    [reflexivity|].
  destruct (shutdown_fault host meter_provider);
    cbn [orb map app allocations i trace]; rewrite <- ?app_assoc;
    reflexivity.
Qed.

(** The [try] statement of [main]: the [except] clause, then the [finally]
    block. *)
Lemma guarded_eq host (body : M unit) st :
  guarded host span_processor log_processor metric_reader
          logger_provider meter_provider body st =
  after_finally host (after_except (body st)).
Proof.
  unfold guarded, try_finally, try_except, after_finally, after_except,
    on_ramp_failure, sys_exit, raise.
  destruct (body st) as [[[]|e|] st'].
  - now rewrite flush_telemetry_eq; destruct (existsb _ _).
  - destruct (is_MemoryError e);
      now rewrite flush_telemetry_eq; destruct (existsb _ _).
  - reflexivity.
Qed.

Lemma main_eq host env fuel st :
  main host env fuel st =
  after_finally host
    (after_except
       (ramp_of_main host env fuel (add_events st (bootstrap_events env)))).
Proof.
  unfold main, configure_tracing, configure_logging, configure_metrics,
    configure_system_metrics.
  unfold bind at 1 2 3 4 5 6 7. unfold emit, ret. cbn [fst snd allocations i trace].
  rewrite guarded_eq. unfold ramp_of_main, chunk_mb_of, sleep_seconds_of,
    add_events, bootstrap_events.
  now rewrite <- !app_assoc.
Qed.

(** ** What the reachable states look like *)

Lemma bytes_held_steady chunk_mb chunk_bytes secs k st :
  bytes_held (steady chunk_mb chunk_bytes secs k st)
  = bytes_held st + Z.of_nat k * chunk_bytes.
Proof.
  unfold bytes_held, steady. cbn [allocations].
  rewrite fold_right_app, fold_add_repeat.
  induction (allocations st) as [|x l IH]; cbn [fold_right]; lia.
Qed.

Lemma bytes_held_grown chunk_mb chunk_bytes st :
  bytes_held (grown chunk_mb chunk_bytes st) = bytes_held st + chunk_bytes.
Proof. unfold grown. apply bytes_held_app. Qed.

Lemma count_ramp_events p chunk_mb chunk_bytes secs (c : nat) :
  (forall n, count p (iteration_events chunk_mb chunk_bytes secs n) = c) ->
  forall k from,
    count p (ramp_events chunk_mb chunk_bytes secs from k) = (k * c)%nat.
Proof.
  intros Hc. induction k as [|k IH]; intros from; [reflexivity|].
  cbn [ramp_events]. rewrite count_app, Hc, IH. lia.
Qed.

Lemma chunk_logs_ramp_events chunk_mb chunk_bytes secs k from :
  count is_chunk_log (ramp_events chunk_mb chunk_bytes secs from k) = k.
Proof.
  rewrite (count_ramp_events _ _ _ _ 1%nat); [lia | reflexivity].
Qed.

Lemma set_status_ramp_events chunk_mb chunk_bytes secs k from :
  count is_set_status (ramp_events chunk_mb chunk_bytes secs from k) = O.
Proof.
  rewrite (count_ramp_events _ _ _ _ O); [lia | reflexivity].
Qed.

Lemma shutdown_calls_ramp_events chunk_mb chunk_bytes secs k from :
  shutdown_calls (ramp_events chunk_mb chunk_bytes secs from k) = [].
Proof.
  revert from. induction k as [|k IH]; intros from; [reflexivity|].
  cbn [ramp_events]. now rewrite shutdown_calls_app, IH.
Qed.

(** Calls that set no status leave the status as it is. *)
Lemma status_kept (evs : list event) : forall acc,
  count is_set_status evs = O ->
  fold_left (fun acc e => match e with SetStatus c d => (c, d) | _ => acc end)
            evs acc = acc.
Proof.
  induction evs as [|e evs IH]; intros acc Hc; [reflexivity|].
  destruct e; cbn [fold_left]; try (apply IH; exact Hc).
  discriminate Hc.
Qed.

Lemma emitted_app (st st' : State) (evs : list event) :
  trace st' = trace st ++ evs -> emitted st st' = evs.
Proof.
  intros H. unfold emitted. rewrite H. clear H.
  induction (trace st) as [|e l IH]; [reflexivity | exact IH].
Qed.

Lemma cap_reached_false (x : Z) :
  cap_reached (Some cap_bytes) x = false -> x < cap_bytes.
Proof.
  unfold cap_reached. change (truthy cap_bytes) with true.
  cbn [andb]. apply Z.leb_gt.
Qed.

(** Every way [ramp_memory_and_fail] can stand after [fuel] iterations at
    most: still going; left by an allocation that raised something else
    than [MemoryError]; left by an allocation the host refused; left at the
    cap; left by a sleep that raised.  [k] is the number of iterations that
    ran to their end. *)
Lemma ramp_exits host chunk_mb secs fuel st :
  let chunk_bytes := chunk_mb * 1024 * 1024 in
  let at_k k := steady chunk_mb chunk_bytes secs k (loop_entry chunk_mb secs st) in
  let run := ramp_memory_and_fail host chunk_mb secs fuel st in
  let cap_failure := MemoryError (cap_message cap_bytes) in
  exists k, (k <= fuel)%nat /\
    (forall j, (1 <= j <= k)%nat -> Z.of_nat j * chunk_bytes < cap_bytes) /\
    ((run = (Running, at_k k) /\ k = fuel)
     \/ (exists e, run = (Raise e, add_events (at_k k) [SpanEnd "oom-demo"]) /\
           raised_by_ramp e /\ is_MemoryError e = false)
     \/ run = (Raise (MemoryError ""),
               add_events (at_k k)
                 (failure_events (MemoryError "") ++ [SpanEnd "oom-demo"]))
     \/ (run = (Raise cap_failure,
                add_events (grown chunk_mb chunk_bytes (at_k k))
                  (failure_events cap_failure ++ [SpanEnd "oom-demo"])) /\
         cap_bytes <= (Z.of_nat k + 1) * chunk_bytes)
     \/ (exists e, run = (Raise e,
                          add_events (grown chunk_mb chunk_bytes (at_k k))
                            [SpanEnd "oom-demo"]) /\
           raised_by_ramp e /\ is_MemoryError e = false /\
           (Z.of_nat k + 1) * chunk_bytes < cap_bytes)).
Proof.
  intros chunk_bytes at_k run cap_failure.
  unfold run. rewrite ramp_memory_and_fail_eq. fold chunk_bytes.
  destruct (loop_exits host (Some cap_bytes) chunk_mb chunk_bytes secs fuel
              (loop_entry chunk_mb secs st))
    as (k & Hk & Hbelow & Hexit).
  cbn [loop_entry i] in Hbelow, Hexit. fold (at_k k) in Hexit.
  exists k. split; [exact Hk|]. split.
  { intros j Hj. apply cap_reached_false. apply (Hbelow j Hj). }
  destruct Hexit as [[-> ->] | [(e & -> & Hkind & Hmem & _)
                    | [(m & -> & [= <-] & _ & Hle) | (e & -> & Hkind & Hmem & Hno)]]].
  - left. auto.
  - destruct Hmem as [Hmem | ->].
    + right; left. exists e. cbn [finish_ramp]. rewrite Hmem. auto.
    + right; right; left. reflexivity.
  - right; right; right; left. split; [reflexivity|]. lia.
  - right; right; right; right. exists e. cbn [finish_ramp]. rewrite Hmem.
    repeat split; auto. apply cap_reached_false in Hno. lia.
Qed.

Lemma bytes_held_add_events st evs : bytes_held (add_events st evs) = bytes_held st.
Proof. reflexivity. Qed.

Lemma i_add_events st evs : i (add_events st evs) = i st.
Proof. reflexivity. Qed.

Lemma allocations_add_events st evs :
  allocations (add_events st evs) = allocations st.
Proof. reflexivity. Qed.

Lemma trace_add_events st evs : trace (add_events st evs) = trace st ++ evs.
Proof. reflexivity. Qed.

(** The state after [k] full iterations of the function. *)
Lemma entry_steady_facts chunk_mb chunk_bytes secs st k :
  let s := steady chunk_mb chunk_bytes secs k (loop_entry chunk_mb secs st) in
  bytes_held s = Z.of_nat k * chunk_bytes /\
  i s = Z.of_nat k /\
  List.length (allocations s) = k.
Proof.
  cbn zeta. rewrite bytes_held_steady. unfold steady, loop_entry.
  cbn [allocations i app]. rewrite repeat_length. now unfold bytes_held.
Qed.

Lemma grown_facts chunk_mb chunk_bytes st :
  let s := grown chunk_mb chunk_bytes st in
  bytes_held s = bytes_held st + chunk_bytes /\
  i s = i st + 1 /\
  List.length (allocations s) = S (List.length (allocations st)).
Proof.
  cbn zeta. rewrite bytes_held_grown. unfold grown. cbn [allocations i].
  rewrite length_app. cbn [List.length]. repeat split. lia.
Qed.

Lemma finish_ramp_fields (p : result unit * State) :
  allocations (snd (finish_ramp p)) = allocations (snd p) /\
  i (snd (finish_ramp p)) = i (snd p).
Proof.
  destruct p as [[u|e|] s]; cbn [finish_ramp]; [auto | | auto].
  destruct (is_MemoryError e); auto.
Qed.

(** Once the function has raised, more fuel changes nothing. *)
Lemma ramp_raise_stable host chunk_mb secs st fuel more e :
  fst (ramp_memory_and_fail host chunk_mb secs fuel st) = Raise e ->
  ramp_memory_and_fail host chunk_mb secs (fuel + more) st =
  ramp_memory_and_fail host chunk_mb secs fuel st.
Proof.
  rewrite !ramp_memory_and_fail_eq.
  destruct (while_true fuel _ _) as [[u|e'|] s] eqn:Hloop; cbn [finish_ramp fst].
  - discriminate.
  - intros _. now rewrite (while_true_raise_stable _ more _ _ _ _ Hloop).
  - discriminate.
Qed.

(** One more iteration never lowers the count of chunks. *)
Lemma ramp_i_monotone host chunk_mb secs st fuel :
  i (snd (ramp_memory_and_fail host chunk_mb secs fuel st)) <=
  i (snd (ramp_memory_and_fail host chunk_mb secs (S fuel) st)).
Proof.
  rewrite !ramp_memory_and_fail_eq.
  rewrite !(proj2 (finish_ramp_fields _)).
  replace (S fuel) with (fuel + 1)%nat by lia.
  rewrite while_true_split by apply iteration_leaves.
  destruct (while_true fuel _ _) as [[u|e|] s]; cbn [snd]; try lia.
  cbn [while_true]. unfold bind.
  apply iteration_cases; intros; cbn [snd grown add_events i]; lia.
Qed.

(** C3. After every iteration of [ramp_memory_and_fail], whatever the host
    and the configuration: the bytes held are the count of chunks times the
    chunk size; the count of chunks is the length of the list of
    allocations and does not go down from one iteration to the next; and
    once the bytes held have reached the cap the function has raised its
    cap failure and no later iteration changes anything. *)
Theorem ramp_state_invariant host (chunk_mb : Z) (secs : float) (st : State) :
  let chunk_bytes := chunk_mb * 1024 * 1024 in
  let run fuel := ramp_memory_and_fail host chunk_mb secs fuel st in
  forall fuel,
    let st' := snd (run fuel) in
    bytes_held st' = i st' * chunk_bytes /\
    Z.of_nat (List.length (allocations st')) = i st' /\
    i st' <= i (snd (run (S fuel))) /\
    (cap_bytes <= bytes_held st' ->
       fst (run fuel) = Raise (MemoryError (cap_message cap_bytes)) /\
       forall more, run (fuel + more)%nat = run fuel).
Proof.
  intros chunk_bytes run fuel st'.
  assert (Hstable : forall e, fst (run fuel) = Raise e ->
                    forall more, run (fuel + more)%nat = run fuel)
    by (intros e He more; now apply (ramp_raise_stable _ _ _ _ _ _ e)).
  assert (Hmono : i st' <= i (snd (run (S fuel)))) by apply ramp_i_monotone.
  destruct (ramp_exits host chunk_mb secs fuel st)
    as (k & Hk & Hbelow & Hexit).
  fold chunk_bytes in Hbelow, Hexit. fold (run fuel) in Hexit.
  assert (Hk_below : Z.of_nat k * chunk_bytes < cap_bytes).
  { destruct k as [|k]; [reflexivity|]. apply Hbelow. lia. }
  destruct (entry_steady_facts chunk_mb chunk_bytes secs st k) as (Hb & Hi & Hl).
  destruct (grown_facts chunk_mb chunk_bytes
              (steady chunk_mb chunk_bytes secs k (loop_entry chunk_mb secs st)))
    as (Hgb & Hgi & Hgl).
  unfold st' in *.
  destruct Hexit as [[Hrun _] | [(e & Hrun & _) | [Hrun | [[Hrun Hle]
                    | (e & Hrun & _ & _ & Hlt)]]]];
    rewrite Hrun in *; cbn [fst snd] in *;
    rewrite ?bytes_held_add_events, ?i_add_events, ?allocations_add_events.
  - repeat split; try lia; exact Hmono.
  - repeat split; try lia; exact Hmono.
  - repeat split; try lia; exact Hmono.
  - repeat split; try lia; try exact Hmono.
    now apply (Hstable (MemoryError (cap_message cap_bytes))).
  - repeat split; try lia; exact Hmono.
Qed.

(** ** What a run emits *)

(** The calls of a run of the function: the preamble, [k] full iterations,
    what the last iteration did ([mid]) and how the function left
    ([tail]). *)
Lemma emitted_shape chunk_mb chunk_bytes secs st k (s : State) mid tail :
  trace s =
    trace (steady chunk_mb chunk_bytes secs k (loop_entry chunk_mb secs st))
    ++ mid ++ tail ->
  emitted st s =
  preamble (Some cap_bytes) chunk_mb secs
  ++ ramp_events chunk_mb chunk_bytes secs 0 k ++ mid ++ tail.
Proof.
  intros Hs. apply emitted_app. rewrite Hs.
  unfold steady, loop_entry. cbn [trace i]. now rewrite <- !app_assoc.
Qed.

Lemma observed chunk_mb chunk_bytes secs k mid tail :
  let evs := preamble (Some cap_bytes) chunk_mb secs
             ++ ramp_events chunk_mb chunk_bytes secs 0 k ++ mid ++ tail in
  count is_chunk_log evs
    = (k + count is_chunk_log mid + count is_chunk_log tail)%nat /\
  count is_set_status evs
    = (count is_set_status mid + count is_set_status tail)%nat /\
  (count is_set_status mid = O ->
   span_status evs =
   fold_left (fun acc e => match e with SetStatus c d => (c, d) | _ => acc end)
             tail (StatusCode.UNSET, "")) /\
  shutdown_calls evs = shutdown_calls mid ++ shutdown_calls tail.
Proof.
  cbn zeta. rewrite preamble_cap. repeat split.
  - rewrite !count_app, chunk_logs_ramp_events. cbn. lia.
  - rewrite !count_app, set_status_ramp_events. cbn. lia.
  - intros Hmid. rewrite span_status_app, !fold_left_app.
    rewrite (status_kept (ramp_events _ _ _ _ _))
      by apply set_status_ramp_events.
    now rewrite (status_kept mid) by exact Hmid.
  - rewrite !shutdown_calls_app, shutdown_calls_ramp_events. reflexivity.
Qed.




(** ** The failure handler *)

(** C4, as the program has it.  When the loop raises [MemoryError] the
    handler first emits one record at error severity, then records the
    exception on the span, then sets the error status with the message of
    the failure, and then raises the same exception again; chunks and
    counter stay as the loop left them.  Any other exception passes the
    handler untouched. *)
Theorem failure_is_logged_then_recorded_then_reraised
    host (max_bytes : option Z) (chunk_mb chunk_bytes : Z) (secs : float)
    (fuel : nat) (st st' : State) (exc : exn) :
  ramp_loop host max_bytes chunk_mb chunk_bytes secs fuel st = (Raise exc, st') ->
  (is_MemoryError exc = true ->
   ramp_try host max_bytes chunk_mb chunk_bytes secs fuel st =
   (Raise exc,
    add_events st'
      [LogRecord Level.ERROR "MemoryError triggered; demo complete" [];
       RecordException exc;
       SetStatus StatusCode.ERROR (str exc)]))
  /\
  (is_MemoryError exc = false ->
   ramp_try host max_bytes chunk_mb chunk_bytes secs fuel st = (Raise exc, st')).
Proof.
  intros Hloop. unfold ramp_try, try_except. rewrite Hloop.
  unfold on_memory_error. split; intros ->; [|reflexivity].
  unfold bind, logger_exception, record_exception, set_status, emit, raise,
    add_events.
  cbn [allocations i trace]. now rewrite <- !app_assoc.
Qed.

Lemma failure_is_logged_then_recorded_then_reraised_witness :
  ramp_try quiet_host (Some cap_bytes) 400 (400 * 1024 * 1024) half 1 initial =
  (Raise (MemoryError "Reached demo cap of 400.0 MB"),
   add_events
     (snd (ramp_loop quiet_host (Some cap_bytes) 400 (400 * 1024 * 1024) half 1
             initial))
     [LogRecord Level.ERROR "MemoryError triggered; demo complete" [];
      RecordException (MemoryError "Reached demo cap of 400.0 MB");
      SetStatus StatusCode.ERROR "Reached demo cap of 400.0 MB"]).
Proof.
  apply (proj1 (failure_is_logged_then_recorded_then_reraised
                  quiet_host (Some cap_bytes) 400 (400 * 1024 * 1024) half 1
                  initial _ (MemoryError "Reached demo cap of 400.0 MB")
                  eq_refl)).
  reflexivity.
Defined.

(** C4 as stated fails: with a chunk of 400 MB the first iteration reaches
    the cap, and the record at error severity is call 7 of the run, before
    the exception event (call 8) and the error status (call 9). *)
Lemma error_log_precedes_span_record :
  ~ span_recorded_before_log
      (trace (snd (ramp_memory_and_fail quiet_host 400 half 1 initial))).
Proof.
  intros (a & b & c & Ha & Hb & Hc & Hac & Hbc).
  vm_compute in Ha, Hc.
  injection Ha as <-. injection Hc as <-. lia.
Qed.

(** ** Chunk sizes of zero and below *)




(** ** Shutdown *)

Lemma attempted_no_fault host (cs : list component) :
  no_fault host -> attempted host cs = cs.
Proof.
  intros Hno. induction cs as [|c cs IH]; [reflexivity|].
  cbn [attempted]. now rewrite Hno, IH.
Qed.

Lemma shutdown_calls_shutdown_events host (cs : list component) :
  shutdown_calls (shutdown_events host cs) = attempted host cs.
Proof.
  unfold shutdown_events.
  induction (attempted host cs) as [|c l IH]; [reflexivity|].
  cbn. now f_equal.
Qed.

(** The calls made up to and including the first one that raises. *)
Lemma attempted_first_fault host (pre post : list component) (c : component) :
  (forall x, In x pre -> shutdown_fault host x = false) ->
  shutdown_fault host c = true ->
  attempted host (pre ++ c :: post) = pre ++ [c] /\
  existsb (shutdown_fault host) (pre ++ c :: post) = true.
Proof.
  intros Hpre Hc. induction pre as [|x pre IH]; cbn [app attempted existsb].
  - now rewrite Hc.
  - rewrite (Hpre x) by now left. cbn [orb].
    destruct IH as [IH1 IH2]; [intros y Hy; apply Hpre; now right|].
    now rewrite IH1, IH2.
Qed.

Lemma existsb_no_fault host (cs : list component) :
  no_fault host -> existsb (shutdown_fault host) cs = false.
Proof.
  intros Hno. induction cs as [|c cs IH]; [reflexivity|].
  cbn [existsb]. now rewrite Hno, IH.
Qed.

(** The function makes no shutdown call. *)
Lemma ramp_makes_no_shutdown_call host chunk_mb secs fuel st :
  shutdown_calls
    (emitted st (snd (ramp_memory_and_fail host chunk_mb secs fuel st))) = [].
Proof.
  set (chunk_bytes := chunk_mb * 1024 * 1024).
  destruct (ramp_exits host chunk_mb secs fuel st) as (k & _ & _ & Hexit).
  fold chunk_bytes in Hexit.
  set (mid := [Allocated chunk_bytes; chunk_log chunk_mb (Z.of_nat k + 1)]).
  assert (Hmid : forall tail,
    trace (add_events
             (grown chunk_mb chunk_bytes
                (steady chunk_mb chunk_bytes secs k (loop_entry chunk_mb secs st)))
             tail)
    = trace (steady chunk_mb chunk_bytes secs k (loop_entry chunk_mb secs st))
      ++ mid ++ tail).
  { intros tail. unfold add_events, grown, steady, loop_entry, mid.
    cbn [trace i]. now rewrite <- !app_assoc. }
  destruct Hexit as [[Hrun _] | [(e & Hrun & _) | [Hrun | [[Hrun _]
                    | (e & Hrun & _)]]]];
    rewrite Hrun; cbn [snd].
  - rewrite (emitted_shape chunk_mb chunk_bytes secs st k _ [] [])
      by (now rewrite !app_nil_r).
    now destruct (observed chunk_mb chunk_bytes secs k [] []) as (_ & _ & _ & ->).
  - rewrite (emitted_shape chunk_mb chunk_bytes secs st k _ [] [SpanEnd "oom-demo"])
      by reflexivity.
    now destruct (observed chunk_mb chunk_bytes secs k [] [SpanEnd "oom-demo"])
      as (_ & _ & _ & ->).
  - rewrite (emitted_shape chunk_mb chunk_bytes secs st k _ []
               (failure_events (MemoryError "") ++ [SpanEnd "oom-demo"]))
      by reflexivity.
    now destruct (observed chunk_mb chunk_bytes secs k []
                    (failure_events (MemoryError "") ++ [SpanEnd "oom-demo"]))
      as (_ & _ & _ & ->).
  - rewrite (emitted_shape chunk_mb chunk_bytes secs st k _ mid _ (Hmid _)).
    now destruct (observed chunk_mb chunk_bytes secs k mid
                    (failure_events (MemoryError (cap_message cap_bytes))
                     ++ [SpanEnd "oom-demo"]))
      as (_ & _ & _ & ->).
  - rewrite (emitted_shape chunk_mb chunk_bytes secs st k _ mid _ (Hmid _)).
    now destruct (observed chunk_mb chunk_bytes secs k mid [SpanEnd "oom-demo"])
      as (_ & _ & _ & ->).
Qed.

(** The function only adds to the list of calls. *)
Lemma ramp_extends_trace host chunk_mb secs fuel st :
  trace (snd (ramp_memory_and_fail host chunk_mb secs fuel st)) =
  trace st ++ emitted st (snd (ramp_memory_and_fail host chunk_mb secs fuel st)).
Proof.
  assert (Hex : exists evs,
    trace (snd (ramp_memory_and_fail host chunk_mb secs fuel st)) = trace st ++ evs).
  { destruct (ramp_exits host chunk_mb secs fuel st) as (k & _ & _ & Hexit).
    destruct Hexit as [[Hrun _] | [(e & Hrun & _) | [Hrun | [[Hrun _]
                      | (e & Hrun & _)]]]];
      rewrite Hrun; unfold add_events, grown, steady, loop_entry;
      cbn [snd trace]; rewrite <- !app_assoc; eexists; reflexivity. }
  destruct Hex as (evs & Hevs). rewrite Hevs at 1.
  now rewrite (emitted_app _ _ _ Hevs).
Qed.

(** How the function can end: it is still going, or it has raised one of
    the exceptions of its built-ins. *)
Lemma ramp_result_kinds host chunk_mb secs fuel st :
  fst (ramp_memory_and_fail host chunk_mb secs fuel st) = Running \/
  exists e, fst (ramp_memory_and_fail host chunk_mb secs fuel st) = Raise e /\
            raised_by_ramp e.
Proof.
  destruct (ramp_exits host chunk_mb secs fuel st) as (k & _ & _ & Hexit).
  destruct Hexit as [[Hrun _] | [(e & Hrun & Hkind & _) | [Hrun | [[Hrun _]
                    | (e & Hrun & Hkind & _)]]]];
    rewrite Hrun; cbn [fst]; [now left | right ..]; eexists; split;
    try reflexivity; try exact Hkind; exact I.
Qed.

Lemma after_finally_status host (r : result unit) (s : State) :
  r <> Running ->
  exit_status (fst (after_finally host (r, s))) =
  if existsb (shutdown_fault host) shutdown_order then Some 1
  else exit_status r.
Proof.
  intros Hr. unfold after_finally.
  destruct r as [u|e|]; [| |contradiction]; cbn [fst];
    now destruct (existsb _ _).
Qed.

(** [main] never leaves with status 0. *)
Lemma main_never_exits_zero host env fuel st :
  exit_status (fst (main host env fuel st)) <> Some 0.
Proof.
  rewrite main_eq. unfold ramp_of_main.
  destruct (ramp_result_kinds host (chunk_mb_of env) (sleep_seconds_of env) fuel
              (add_events st (bootstrap_events env)))
    as [Hrun | (e & Hrun & Hkind)];
    destruct (ramp_memory_and_fail _ _ _ _ _) as [r s]; cbn [fst] in Hrun; subst r.
  - discriminate.
  - unfold after_except.
    destruct e; try contradiction; cbn [is_MemoryError];
      rewrite after_finally_status by discriminate;
      destruct (existsb _ _); discriminate.
Qed.

(** The shutdown calls of a run of [main]: none while the ramp is going,
    and then those of the [finally] block. *)
Lemma main_shutdown_calls host env fuel st :
  shutdown_calls (emitted st (snd (main host env fuel st))) =
  match fst (main host env fuel st) with
  | Running => []
  | _ => attempted host shutdown_order
  end.
Proof.
  rewrite main_eq. unfold ramp_of_main.
  set (s0 := add_events st (bootstrap_events env)).
  pose proof (ramp_extends_trace host (chunk_mb_of env) (sleep_seconds_of env)
                fuel s0) as Htrace.
  pose proof (ramp_makes_no_shutdown_call host (chunk_mb_of env)
                (sleep_seconds_of env) fuel s0) as Hnone.
  destruct (ramp_memory_and_fail host (chunk_mb_of env) (sleep_seconds_of env)
              fuel s0) as [r s].
  cbn [snd] in Htrace, Hnone.
  assert (Hleft :
    shutdown_calls
      (emitted st (add_events s (shutdown_events host shutdown_order)))
    = attempted host shutdown_order).
  { rewrite (emitted_app st _
               (bootstrap_events env ++ emitted s0 s
                ++ shutdown_events host shutdown_order)).
    - rewrite !shutdown_calls_app, Hnone, shutdown_calls_shutdown_events.
      reflexivity.
    - rewrite trace_add_events, Htrace. unfold s0, add_events. cbn [trace].
      now rewrite <- !app_assoc. }
  destruct r as [u|e|]; cbn [after_except].
  - cbn [after_finally fst snd].
    destruct (existsb _ _); exact Hleft.
  - destruct (is_MemoryError e); cbn [after_finally fst snd];
      destruct (existsb _ _); exact Hleft.
  - cbn [after_finally fst snd].
    rewrite (emitted_app st _ (bootstrap_events env ++ emitted s0 s)).
    + now rewrite shutdown_calls_app, Hnone.
    + rewrite Htrace. unfold s0, add_events. cbn [trace].
      now rewrite <- !app_assoc.
Qed.

(** C5. The [try] statement of [main] runs its [finally] block exactly
    once when its body has left, however it left (normally, by the ramp
    failure, by an interrupt or by any other exception), and not before.
    The block calls [shutdown()] on the trace channel, the log channel, the
    metric channel, the logger provider and the meter provider, in this
    order, each once, as long as no call raises; so does a run of [main],
    whose ramp makes no shutdown call itself. *)
Theorem shutdown_runs_once_in_order host :
  (forall (body : M unit) (st : State),
     let p := guarded host span_processor log_processor metric_reader
                      logger_provider meter_provider body st in
     (fst (body st) = Running -> p = (Running, snd (body st))) /\
     (fst (body st) <> Running ->
      trace (snd p) =
        trace (snd (body st)) ++ shutdown_events host shutdown_order /\
      (no_fault host ->
       shutdown_calls (shutdown_events host shutdown_order) =
       [span_processor; log_processor; metric_reader;
        logger_provider; meter_provider])))
  /\
  (forall env fuel st,
     let p := main host env fuel st in
     (fst p = Running -> shutdown_calls (emitted st (snd p)) = []) /\
     (fst p <> Running -> no_fault host ->
      shutdown_calls (emitted st (snd p)) =
      [span_processor; log_processor; metric_reader;
       logger_provider; meter_provider])).
Proof.
  split.
  - intros body st p. unfold p. rewrite guarded_eq.
    destruct (body st) as [r s]. cbn [fst snd]. split.
    + intros ->. reflexivity.
    + intros Hr. split.
      * destruct r as [u|e|]; [| |contradiction]; cbn [after_except].
        -- reflexivity.
        -- now destruct (is_MemoryError e).
      * intros Hno.
        now rewrite shutdown_calls_shutdown_events, attempted_no_fault.
  - intros env fuel st p. unfold p. rewrite main_shutdown_calls. split.
    + now intros ->.
    + intros Hr Hno.
      destruct (fst (main host env fuel st)); [| |contradiction];
        now rewrite attempted_no_fault.
Qed.

Lemma shutdown_runs_once_in_order_witness :
  fst (main quiet_host default_env 40 initial) <> Running /\
  shutdown_calls (emitted initial (snd (main quiet_host default_env 40 initial)))
  = [span_processor; log_processor; metric_reader;
     logger_provider; meter_provider].
Proof.
  assert (Hleft : fst (main quiet_host default_env 40 initial) <> Running)
    by (vm_compute; discriminate).
  split; [exact Hleft|].
  apply (proj2 (proj2 (shutdown_runs_once_in_order quiet_host)
                  default_env 40%nat initial) Hleft).
  intros c. reflexivity.
Defined.

(** C6, as the program has it.  The [finally] block of [main] fails fast:
    when the [shutdown()] of one component raises, the calls made are those
    up to and including it, no later component is shut down, and this
    exception leaves [main] in place of whatever was pending. *)
Theorem shutdown_fails_fast
    host (body : M unit) (st : State) (pre post : list component) (c : component) :
  fst (body st) <> Running ->
  shutdown_order = pre ++ c :: post ->
  (forall x, In x pre -> shutdown_fault host x = false) ->
  shutdown_fault host c = true ->
  let p := guarded host span_processor log_processor metric_reader
                   logger_provider meter_provider body st in
  fst p = Raise (Exception "shutdown failed") /\
  trace (snd p) = trace (snd (body st)) ++ shutdown_events host shutdown_order /\
  shutdown_calls (shutdown_events host shutdown_order) = pre ++ [c] /\
  (forall c', In c' post ->
     ~ In c' (shutdown_calls (shutdown_events host shutdown_order))).
Proof.
  intros Hr Horder Hpre Hc p. unfold p. rewrite guarded_eq.
  destruct (attempted_first_fault host pre post c Hpre Hc) as [Hatt Hex].
  rewrite <- Horder in Hatt, Hex.
  destruct (body st) as [r s]. cbn [fst snd] in *.
  assert (Hfin : forall r', r' <> Running ->
    after_finally host (r', s) =
    (Raise (Exception "shutdown failed"),
     add_events s (shutdown_events host shutdown_order))).
  { intros r' Hr'. unfold after_finally. rewrite Hex.
    destruct r'; [reflexivity | reflexivity | contradiction]. }
  assert (Hrun : after_finally host (after_except (r, s)) =
    (Raise (Exception "shutdown failed"),
     add_events s (shutdown_events host shutdown_order))).
  { destruct r as [u|e|]; [| |contradiction]; cbn [after_except].
    - now apply Hfin.
    - destruct (is_MemoryError e); now apply Hfin. }
  rewrite Hrun. cbn [fst snd].
  rewrite shutdown_calls_shutdown_events, Hatt.
  repeat split.
  intros c' Hpost Hin.
  assert (Hnodup : NoDup shutdown_order)
    by (unfold shutdown_order; repeat constructor; cbn; intuition discriminate).
  rewrite Horder in Hnodup.
  replace (pre ++ c :: post) with ((pre ++ [c]) ++ post) in Hnodup
    by (now rewrite <- app_assoc).
  revert Hnodup Hin Hpost. generalize (pre ++ [c]). intros l.
  induction l as [|x l IH]; cbn [app In]; [tauto|].
  intros Hnodup [-> | Hin] Hpost.
  - inversion Hnodup as [|? ? Hnot _]. apply Hnot, in_or_app. now right.
  - inversion Hnodup. now apply IH.
Qed.

Lemma shutdown_fails_fast_witness :
  fst (main faulty_host default_env 40 initial)
  = Raise (Exception "shutdown failed") /\
  shutdown_calls (shutdown_events faulty_host shutdown_order) = [span_processor].
Proof.
  destruct (shutdown_fails_fast faulty_host
              (ramp_of_main faulty_host default_env 40)
              (add_events initial (bootstrap_events default_env))
              [] [log_processor; metric_reader; logger_provider; meter_provider]
              span_processor)
    as (Hr & _ & Hcalls & _).
  - vm_compute. discriminate.
  - reflexivity.
  - intros x [].
  - reflexivity.
  - split; [|exact Hcalls].
    rewrite main_eq, <- guarded_eq. exact Hr.
Defined.

(** C6 as stated fails: when the shutdown of the trace channel raises, the
    log channel, which comes later, is never shut down. *)
Lemma faulty_flush_stops_the_sequence :
  ~ collect_and_continue faulty_host
      (trace (snd (main faulty_host default_env 40 initial))).
Proof.
  intros Hcc.
  assert (Hin : In log_processor
                  (shutdown_calls
                     (trace (snd (main faulty_host default_env 40 initial))))).
  { apply (Hcc span_processor).
    - reflexivity.
    - vm_compute. now left.
    - exists [], [], [metric_reader; logger_provider; meter_provider].
      reflexivity. }
  vm_compute in Hin. destruct Hin as [Hin | []]. discriminate Hin.
Qed.

(** ** Exit status *)

(** C7. The [try] statement of [main] turns a body that raised
    [MemoryError] into exit status 1, whatever the shutdown does; and it
    leaves with status 0 only when its body returned normally (and nothing
    raised in the shutdown), as long as the body does not itself call
    [sys.exit].  So does [main]: status 1 when the ramp failed. *)
Theorem exit_status_encodes_outcome host :
  (forall (body : M unit) (st : State) m,
     fst (body st) = Raise (MemoryError m) ->
     exit_status
       (fst (guarded host span_processor log_processor metric_reader
                     logger_provider meter_provider body st)) = Some 1)
  /\
  (forall (body : M unit) (st : State),
     (forall code, fst (body st) <> Raise (SystemExit code)) ->
     exit_status
       (fst (guarded host span_processor log_processor metric_reader
                     logger_provider meter_provider body st)) = Some 0 ->
     (exists u, fst (body st) = Ok u) /\
     existsb (shutdown_fault host) shutdown_order = false)
  /\
  (forall env fuel st m,
     fst (ramp_of_main host env fuel (add_events st (bootstrap_events env)))
       = Raise (MemoryError m) ->
     exit_status (fst (main host env fuel st)) = Some 1).
Proof.
  assert (Hfail : forall (p : result unit * State) m,
    fst p = Raise (MemoryError m) ->
    exit_status (fst (after_finally host (after_except p))) = Some 1).
  { intros [r s] m Hr. cbn [fst] in Hr. subst r.
    cbn [after_except is_MemoryError].
    rewrite after_finally_status by discriminate.
    now destruct (existsb _ _). }
  repeat split.
  - intros body st m Hr. rewrite guarded_eq. now apply (Hfail _ m).
  - revert H0. rewrite guarded_eq. destruct (body st) as [r s].
    cbn [fst] in *. destruct r as [u|e|]; cbn [after_except].
    + intros _. now exists u.
    + destruct (is_MemoryError e) eqn:He;
        rewrite after_finally_status by discriminate;
        destruct (existsb _ _); try discriminate;
        destruct e; try discriminate.
      cbn [exit_status]. intros [= ->]. now contradiction (H 0).
    + discriminate.
  - revert H0. rewrite guarded_eq. destruct (body st) as [r s].
    cbn [fst] in *. destruct r as [u|e|]; cbn [after_except].
    + rewrite after_finally_status by discriminate.
      now destruct (existsb _ _).
    + destruct (is_MemoryError e);
        rewrite after_finally_status by discriminate;
        now destruct (existsb _ _).
    + discriminate.
  - intros env fuel st m Hr. rewrite main_eq. now apply (Hfail _ m).
Qed.

Lemma exit_status_encodes_outcome_witness :
  exit_status (fst (main quiet_host default_env 40 initial)) = Some 1.
Proof.
  apply (proj2 (proj2 (exit_status_encodes_outcome quiet_host))
           default_env 40%nat initial "Reached demo cap of 400.0 MB").
  vm_compute. reflexivity.
Defined.

(** ** Telemetry health and the ramp *)





(** The health of the collectors does show in what [main] does: the
    outcome of the shutdown calls. *)
Lemma sink_health_shows_in_shutdown :
  trace (snd (main quiet_host default_env 40 initial))
  <> trace (snd (main offline_host default_env 40 initial)).
Proof. vm_compute. discriminate. Qed.

(** ** The function never returns *)

Lemma ramp_never_ok host chunk_mb secs fuel st u :
  fst (ramp_memory_and_fail host chunk_mb secs fuel st) <> Ok u.
Proof.
  destruct (ramp_result_kinds host chunk_mb secs fuel st)
    as [-> | (e & -> & _)]; discriminate.
Qed.

Lemma ceil_div_scale (a b c : Z) :
  0 < a -> 0 < b -> 0 < c -> ceil_div (a * c) (b * c) = ceil_div a b.
Proof.
  intros Ha Hb Hc.
  destruct (ceil_div_bounds a b Ha Hb) as (H1 & H2 & H3).
  destruct (ceil_div_bounds (a * c) (b * c)) as (H4 & H5 & H6); [nia | nia |].
  set (n := ceil_div a b) in *. set (m := ceil_div (a * c) (b * c)) in *.
  assert (m <= n) by nia. assert (n <= m) by nia. lia.
Qed.

(** An undisturbed run of the function with a chunk size above zero. *)
Lemma ramp_undisturbed host chunk_mb secs st :
  1 <= chunk_mb -> sleep_rejects secs = None -> calm host ->
  roomy host (chunk_mb * 1024 * 1024) cap_bytes ->
  let n := ceil_div 400 chunk_mb in
  forall fuel,
    let p := ramp_memory_and_fail host chunk_mb secs fuel st in
    ((fuel < Z.to_nat n)%nat -> fst p = Running /\ i (snd p) = Z.of_nat fuel) /\
    ((Z.to_nat n <= fuel)%nat ->
     fst p = Raise (MemoryError "Reached demo cap of 400.0 MB") /\
     i (snd p) = n).
Proof.
  intros Hchunk Hsleep Hcalm Hroomy n fuel p. unfold p. clear p.
  set (chunk_bytes := chunk_mb * 1024 * 1024) in *.
  assert (Hn : ceil_div cap_bytes chunk_bytes = n).
  { unfold cap_bytes, max_mb_env, chunk_bytes.
    replace (400 * 1024 * 1024) with (400 * (1024 * 1024)) by lia.
    replace (chunk_mb * 1024 * 1024) with (chunk_mb * (1024 * 1024)) by lia.
    apply ceil_div_scale; lia. }
  destruct (ceil_div_bounds cap_bytes chunk_bytes) as (Hn1 & Hlo & Hhi);
    [reflexivity | unfold chunk_bytes; lia |].
  rewrite Hn in Hn1, Hlo, Hhi.
  rewrite ramp_memory_and_fail_eq. fold chunk_bytes.
  set (st0 := loop_entry chunk_mb secs st).
  assert (Hheld0 : bytes_held st0 = i st0 * chunk_bytes) by reflexivity.
  assert (Hcb : 0 <= chunk_bytes) by (unfold chunk_bytes; lia).
  split.
  - intros Hfuel.
    rewrite (loop_below_cap host cap_bytes chunk_mb chunk_bytes secs
               eq_refl Hcb Hsleep Hcalm Hroomy fuel st0 Hheld0).
    + cbn [finish_ramp fst snd steady i st0 loop_entry]. split; [reflexivity|lia].
    + cbn. lia.
    + cbn [st0 loop_entry i]. nia.
  - intros Hfuel.
    set (k := (Z.to_nat n - 1)%nat).
    assert (Hk : Z.of_nat k = n - 1) by (unfold k; lia).
    replace fuel with (S k + (fuel - S k))%nat by (unfold k; lia).
    rewrite (while_true_raise_stable _ _ _ _ _ _
               (loop_reaches_cap host cap_bytes chunk_mb chunk_bytes secs
                  eq_refl Hcb Hsleep Hcalm Hroomy k st0 Hheld0
                  ltac:(cbn; lia)
                  ltac:(cbn [st0 loop_entry i]; rewrite Hk; split; [lia|];
                        replace (0 + (n - 1) + 1) with n by lia; lia))).
    cbn [finish_ramp is_MemoryError fst snd]. split; [reflexivity|].
    cbn [add_events grown steady i st0 loop_entry]. lia.
Qed.

(** C10, as the program has it.  [ramp_memory_and_fail] never returns
    normally, whatever its arguments and its host, and [main] never leaves
    with status 0.  For a chunk size of 1 MB or more and a sleep interval
    that [time.sleep] accepts, on a host that grants the chunks and does
    not interrupt, it raises [MemoryError] with the cap message after
    exactly [ceil (400 / chunk_mb)] iterations; for a chunk size of 0, under
    the same assumptions, it never leaves the loop. *)
Theorem ramp_never_returns host (chunk_mb : Z) (secs : float) :
  (forall fuel st u,
     fst (ramp_memory_and_fail host chunk_mb secs fuel st) <> Ok u) /\
  (forall env fuel st, exit_status (fst (main host env fuel st)) <> Some 0) /\
  (1 <= chunk_mb -> sleep_rejects secs = None -> calm host ->
   roomy host (chunk_mb * 1024 * 1024) cap_bytes ->
   forall fuel st,
     let p := ramp_memory_and_fail host chunk_mb secs fuel st in
     ((fuel < Z.to_nat (ceil_div 400 chunk_mb))%nat ->
      fst p = Running /\ i (snd p) = Z.of_nat fuel) /\
     ((Z.to_nat (ceil_div 400 chunk_mb) <= fuel)%nat ->
      fst p = Raise (MemoryError "Reached demo cap of 400.0 MB") /\
      i (snd p) = ceil_div 400 chunk_mb)) /\
  (chunk_mb = 0 -> sleep_rejects secs = None -> calm host ->
   roomy host 0 cap_bytes ->
   forall fuel st,
     let p := ramp_memory_and_fail host chunk_mb secs fuel st in
     fst p = Running /\ i (snd p) = Z.of_nat fuel).
Proof.
  split; [intros fuel st u; apply ramp_never_ok|].
  split; [intros env fuel st; apply main_never_exits_zero|].
  split.
  - intros Hchunk Hsleep Hcalm Hroomy fuel st.
    now apply ramp_undisturbed.
  - intros -> Hsleep Hcalm Hroomy fuel st p. unfold p.
    rewrite ramp_memory_and_fail_eq. change (0 * 1024 * 1024) with 0.
    rewrite (loop_below_cap host cap_bytes 0 0 secs)
      by (try assumption; try reflexivity; cbn; lia).
    cbn [finish_ramp fst snd steady i loop_entry]. split; [reflexivity|lia].
Qed.

Lemma ramp_never_returns_witness :
  fst (ramp_memory_and_fail quiet_host 10 half 40 initial)
    = Raise (MemoryError "Reached demo cap of 400.0 MB") /\
  i (snd (ramp_memory_and_fail quiet_host 10 half 40 initial)) = 40 /\
  fst (ramp_memory_and_fail quiet_host 10 half 39 initial) = Running.
Proof.
  destruct (ramp_never_returns quiet_host 10 half) as (_ & _ & Hcap & _).
  assert (Hroomy : roomy quiet_host (10 * 1024 * 1024) cap_bytes)
    by (split; [vm_compute; discriminate | intros held _; reflexivity]).
  assert (Hcalm : calm quiet_host) by (intros t; reflexivity).
  pose proof (Hcap ltac:(lia) eq_refl Hcalm Hroomy) as Hrun.
  destruct (Hrun 40%nat initial) as [_ Hfail].
  destruct (Hrun 39%nat initial) as [Hgo _].
  destruct Hfail as [Hf Hi]; [vm_compute; lia|].
  destruct Hgo as [Hg _]; [vm_compute; lia|].
  repeat split; assumption.
Defined.

(** C10 as stated fails: with [OOM_SLEEP_SECONDS=-1] and chunks of 10 MB the
    first sleep raises [ValueError], so the run does not end in
    [MemoryError]. *)
Lemma negative_sleep_raises_value_error :
  ~ always_cap_failure quiet_host 10 40.
Proof.
  intros Hclaim. destruct (Hclaim minus_one) as (m & Hm).
  vm_compute in Hm. discriminate Hm.
Qed.

(** ** The theorems at work *)

(** Chunks of 10 MB under a cap of 35 MB: four chunks, 40 MB held. *)
Lemma ramp_fails_after_ceil_chunks_witness :
  exists st',
    ramp_loop quiet_host (Some (35 * 1024 * 1024)) 10 (10 * 1024 * 1024) half 4
              initial
    = (Raise (MemoryError (cap_message (35 * 1024 * 1024))), st') /\
    i st' = 4 /\
    bytes_held st' = 40 * 1024 * 1024.
Proof.
  destruct (ramp_fails_after_ceil_chunks quiet_host (35 * 1024 * 1024) 10
              (10 * 1024 * 1024) half initial)
    as [_ Hfail].
  - lia.
  - lia.
  - reflexivity.
  - reflexivity.
  - intros t. reflexivity.
  - split; [vm_compute; discriminate | intros held _; reflexivity].
  - destruct (Hfail 4%nat) as (st' & Hrun & Hi & Hall & _ & _).
    + vm_compute. lia.
    + exists st'. split; [exact Hrun|]. split; [exact Hi|].
      unfold bytes_held. rewrite Hall. reflexivity.
Defined.

Lemma ramp_state_invariant_witness :
  fst (ramp_memory_and_fail quiet_host 150 half 3 initial)
    = Raise (MemoryError (cap_message cap_bytes)) /\
  ramp_memory_and_fail quiet_host 150 half (3 + 5) initial
    = ramp_memory_and_fail quiet_host 150 half 3 initial.
Proof.
  destruct (ramp_state_invariant quiet_host 150 half initial 3%nat)
    as (_ & _ & _ & Hfailed).
  destruct Hfailed as [Hf Hstable]; [vm_compute; discriminate|].
  split; [exact Hf | exact (Hstable 5%nat)].
Defined.



(** * Further properties of the program *)

(** ** A run of the function, call by call *)

(** What a run of [ramp_memory_and_fail] has done after [fuel] iterations at
    most: the preamble, [k] full iterations, possibly one more chunk kept
    and logged, and the calls with which it left.  The chunks kept are as
    many as the counter says, all of the configured size. *)
Lemma ramp_emitted host chunk_mb secs fuel st :
  let chunk_bytes := chunk_mb * 1024 * 1024 in
  let p := ramp_memory_and_fail host chunk_mb secs fuel st in
  exists (k : nat) (partial : bool),
    (k <= fuel)%nat /\
    i (snd p) = Z.of_nat (k + if partial then 1 else 0) /\
    allocations (snd p) = repeat chunk_bytes (k + if partial then 1 else 0) /\
    emitted st (snd p) =
      preamble (Some cap_bytes) chunk_mb secs
      ++ ramp_events chunk_mb chunk_bytes secs 0 k
      ++ (if partial then last_chunk chunk_mb chunk_bytes k else [])
      ++ leaving (fst p) /\
    (fst p = Running -> partial = false /\ k = fuel) /\
    (partial = true -> fst p <> Running).
Proof.
  intros chunk_bytes p. unfold p. clear p.
  destruct (ramp_exits host chunk_mb secs fuel st) as (k & Hk & _ & Hexit).
  fold chunk_bytes in Hexit.
  assert (Hall : forall n, repeat chunk_bytes n ++ [chunk_bytes]
                           = repeat chunk_bytes (n + 1)).
  { intros n. rewrite repeat_snoc. f_equal. lia. }
  assert (Hmid : forall tail,
    trace (add_events
             (grown chunk_mb chunk_bytes
                (steady chunk_mb chunk_bytes secs k (loop_entry chunk_mb secs st)))
             tail)
    = trace (steady chunk_mb chunk_bytes secs k (loop_entry chunk_mb secs st))
      ++ last_chunk chunk_mb chunk_bytes k ++ tail).
  { intros tail. unfold add_events, grown, steady, loop_entry, last_chunk.
    cbn [trace i]. now rewrite <- !app_assoc. }
  destruct Hexit as [[Hrun Hfuel] | [(e & Hrun & _ & Hmem) | [Hrun | [[Hrun _]
                    | (e & Hrun & _ & Hmem & _)]]]];
    rewrite Hrun; cbn [fst snd leaving is_MemoryError]; rewrite ?Hmem.
  - exists k, false. rewrite Nat.add_0_r.
    repeat split; try assumption; try discriminate; try reflexivity;
      try (unfold steady, loop_entry; cbn [i]; lia).
    apply (emitted_shape chunk_mb chunk_bytes secs st k _ [] []).
    now rewrite !app_nil_r.
  - exists k, false. rewrite Nat.add_0_r.
    repeat split; try assumption; try discriminate; try reflexivity;
      try (unfold steady, loop_entry; cbn [i add_events]; lia).
    now apply (emitted_shape chunk_mb chunk_bytes secs st k _ []
                 ([] ++ [SpanEnd "oom-demo"])).
  - exists k, false. rewrite Nat.add_0_r.
    repeat split; try assumption; try discriminate; try reflexivity;
      try (unfold steady, loop_entry; cbn [i add_events]; lia).
    now apply (emitted_shape chunk_mb chunk_bytes secs st k _ []
                 (failure_events (MemoryError "") ++ [SpanEnd "oom-demo"])).
  - exists k, true.
    repeat split; try assumption; try discriminate;
      try (unfold steady, loop_entry, grown; cbn [i add_events]; lia);
      try (unfold steady, loop_entry, grown; cbn [allocations add_events app];
           apply Hall).
    apply (emitted_shape chunk_mb chunk_bytes secs st k _
             (last_chunk chunk_mb chunk_bytes k) _ (Hmid _)).
  - exists k, true.
    repeat split; try assumption; try discriminate;
      try (unfold steady, loop_entry, grown; cbn [i add_events]; lia);
      try (unfold steady, loop_entry, grown; cbn [allocations add_events app];
           apply Hall).
    apply (emitted_shape chunk_mb chunk_bytes secs st k _
             (last_chunk chunk_mb chunk_bytes k) ([] ++ [SpanEnd "oom-demo"])
             (Hmid _)).
Qed.

(** ** Chunks, records and the span in any run *)

(** X1. The chunks are retained: after any number of iterations the
    list of allocations holds exactly [i] chunks, each of [chunk_mb] MB, and
    one more iteration only ever appends to it. *)
Theorem chunks_are_retained host (chunk_mb : Z) (secs : float)
    (fuel : nat) (st : State) :
  let run n := ramp_memory_and_fail host chunk_mb secs n st in
  allocations (snd (run fuel))
    = repeat (chunk_mb * 1024 * 1024) (Z.to_nat (i (snd (run fuel)))) /\
  exists more,
    allocations (snd (run (S fuel))) = allocations (snd (run fuel)) ++ more.
Proof.
  intros run. unfold run.
  pose proof (ramp_i_monotone host chunk_mb secs st fuel) as Hmono.
  destruct (ramp_emitted host chunk_mb secs fuel st)
    as (k & b & _ & Hi & Hal & _).
  destruct (ramp_emitted host chunk_mb secs (S fuel) st)
    as (k' & b' & _ & Hi' & Hal' & _).
  rewrite Hi, Hi' in Hmono. rewrite Hal, Hal', Hi, Nat2Z.id.
  split; [reflexivity|].
  exists (repeat (chunk_mb * 1024 * 1024)
            ((k' + if b' then 1 else 0) - (k + if b then 1 else 0))).
  rewrite <- repeat_app. f_equal. lia.
Qed.

Lemma chunk_logs_from_succ chunk_mb from k :
  chunk_logs_from chunk_mb from (S k)
  = chunk_log chunk_mb (from + 1) :: chunk_logs_from chunk_mb (from + 1) k.
Proof.
  unfold chunk_logs_from. cbn [seq map]. f_equal.
  rewrite <- seq_shift, map_map. apply map_ext. intros j. f_equal. lia.
Qed.

Lemma chunk_logs_from_snoc chunk_mb k :
  chunk_logs_from chunk_mb 0 k ++ [chunk_log chunk_mb (Z.of_nat k + 1)]
  = chunk_logs_from chunk_mb 0 (k + 1).
Proof.
  unfold chunk_logs_from. rewrite seq_app, map_app. cbn [seq map].
  do 3 f_equal. lia.
Qed.

Lemma filter_chunk_logs_ramp_events chunk_mb chunk_bytes secs k : forall from,
  filter is_chunk_log (ramp_events chunk_mb chunk_bytes secs from k)
  = chunk_logs_from chunk_mb from k.
Proof.
  induction k as [|k IH]; intros from; [reflexivity|].
  cbn [ramp_events]. rewrite filter_app, IH, chunk_logs_from_succ. reflexivity.
Qed.

(** X2. The "Allocated chunk" records of a run, in the order they were
    emitted, are numbered 1, 2, ..., [i] without gap or repetition, and
    record number [n] reports [n * chunk_mb] megabytes. *)
Theorem chunk_records_are_numbered host (chunk_mb : Z) (secs : float)
    (fuel : nat) (st : State) :
  let p := ramp_memory_and_fail host chunk_mb secs fuel st in
  filter is_chunk_log (emitted st (snd p))
  = map (fun n =>
           LogRecord Level.INFO "Allocated chunk"
             [("chunk_index", Z.of_nat n);
              ("allocated_mb", Z.of_nat n * chunk_mb)])
        (seq 1 (Z.to_nat (i (snd p)))).
Proof.
  intros p. unfold p. clear p.
  destruct (ramp_emitted host chunk_mb secs fuel st)
    as (k & b & _ & Hi & _ & Hem & _ & _).
  rewrite Hem, Hi, Nat2Z.id, preamble_cap, !filter_app,
    filter_chunk_logs_ramp_events.
  assert (Hleave : filter is_chunk_log
            (leaving (fst (ramp_memory_and_fail host chunk_mb secs fuel st))) = []).
  { destruct (fst _) as [u|e|]; [reflexivity | | reflexivity].
    cbn [leaving]. now destruct (is_MemoryError e). }
  rewrite Hleave, app_nil_r. cbn [filter is_chunk_log String.eqb app].
  change (map _ (seq 1 ?n)) with (chunk_logs_from chunk_mb 0 n).
  destruct b.
  - now rewrite <- chunk_logs_from_snoc.
  - now rewrite Nat.add_0_r, app_nil_r.
Qed.


(** X4. The span is opened once in every run; it is ended once, as the
    very last call of the function, as soon as the function has left, and
    not before. *)
Theorem span_is_opened_and_ended_once host (chunk_mb : Z) (secs : float)
    (fuel : nat) (st : State) :
  let p := ramp_memory_and_fail host chunk_mb secs fuel st in
  count is_span_start (emitted st (snd p)) = 1%nat /\
  (fst p = Running -> count is_span_end (emitted st (snd p)) = O) /\
  (fst p <> Running ->
   count is_span_end (emitted st (snd p)) = 1%nat /\
   exists before, emitted st (snd p) = before ++ [SpanEnd "oom-demo"]).
Proof.
  intros p. unfold p. clear p.
  destruct (ramp_emitted host chunk_mb secs fuel st)
    as (k & b & _ & _ & _ & Hem & _ & Hpart).
  rewrite Hem, preamble_cap, !count_app.
  rewrite !(count_ramp_events _ _ _ _ O) by reflexivity.
  split; [|split].
  - destruct (fst _) as [u|e|]; [| destruct e |]; destruct b; cbn; lia.
  - intros Hrun. rewrite Hrun in *. destruct b; cbn; [|lia].
    now contradiction (Hpart eq_refl).
  - intros Hleft. split.
    + destruct (fst _) as [u|e|]; [| destruct e |contradiction];
        destruct b; cbn; lia.
    + destruct (fst _) as [u|e|]; [| |contradiction]; cbn [leaving];
        rewrite ?app_assoc; eexists; reflexivity.
Qed.

Lemma span_is_opened_and_ended_once_witness :
  exists before,
    emitted initial (snd (ramp_memory_and_fail quiet_host 150 half 3 initial))
    = before ++ [SpanEnd "oom-demo"].
Proof.
  apply (span_is_opened_and_ended_once quiet_host 150 half 3 initial).
  vm_compute. discriminate.
Defined.

(** ** A run of [main], call by call *)

(** What [main] makes of the way the ramp ended. *)
Lemma main_result host env fuel st :
  let pr := ramp_of_main host env fuel (add_events st (bootstrap_events env)) in
  fst (main host env fuel st) =
  match fst pr with
  | Running => Running
  | r =>
      if existsb (shutdown_fault host) shutdown_order
      then Raise (Exception "shutdown failed")
      else match r with
           | Raise e => if is_MemoryError e then Raise (SystemExit 1) else Raise e
           | other => other
           end
  end.
Proof.
  cbn zeta. rewrite main_eq.
  destruct (ramp_of_main _ _ _ _) as [[u|e|] s]; cbn [fst after_except].
  - reflexivity.
  - now destruct (is_MemoryError e).
  - reflexivity.
Qed.

(** The calls of a run of [main]: the bootstrap, the ramp, the shutdown. *)
Lemma main_emitted host env fuel st :
  let pr := ramp_of_main host env fuel (add_events st (bootstrap_events env)) in
  emitted st (snd (main host env fuel st)) =
  bootstrap_events env
  ++ emitted (add_events st (bootstrap_events env)) (snd pr)
  ++ match fst pr with
     | Running => []
     | _ => shutdown_events host shutdown_order
     end.
Proof.
  cbn zeta. rewrite main_eq. unfold ramp_of_main.
  set (s0 := add_events st (bootstrap_events env)).
  pose proof (ramp_extends_trace host (chunk_mb_of env) (sleep_seconds_of env)
                fuel s0) as Htrace.
  destruct (ramp_memory_and_fail host (chunk_mb_of env) (sleep_seconds_of env)
              fuel s0) as [r s].
  cbn [fst snd] in *.
  assert (Hleft : forall r',
    emitted st (snd (r' : result unit,
                     add_events s (shutdown_events host shutdown_order)))
    = bootstrap_events env ++ emitted s0 s
      ++ shutdown_events host shutdown_order).
  { intros r'. apply emitted_app. cbn [snd].
    rewrite trace_add_events, Htrace. unfold s0, add_events. cbn [trace].
    now rewrite <- !app_assoc. }
  destruct r as [u|e|]; cbn [after_except].
  - apply Hleft.
  - destruct (is_MemoryError e); apply Hleft.
  - cbn [after_finally snd]. apply emitted_app.
    rewrite Htrace, app_nil_r. unfold s0, add_events. cbn [trace].
    now rewrite <- !app_assoc.
Qed.

(** X5. [configure_resource]: the service name attached to the telemetry
    is never empty.  It is the value of [OTEL_SERVICE_NAME] when that is set
    to a non-empty string, and "python-oom-demo" when it is unset or set to
    the empty string. *)
Theorem service_name_falls_back_to_default (env : Env) :
  configure_resource env <> "" /\
  (forall name, OTEL_SERVICE_NAME env = Some name -> name <> "" ->
     configure_resource env = name) /\
  (OTEL_SERVICE_NAME env = None \/ OTEL_SERVICE_NAME env = Some "" ->
     configure_resource env = "python-oom-demo").
Proof.
  unfold configure_resource.
  destruct (OTEL_SERVICE_NAME env) as [[|c name]|]; repeat split;
    try discriminate; try reflexivity.
  - intros name [= <-] Hne. now contradiction Hne.
  - intros name' [= <-] _. reflexivity.
  - intros [H | H]; discriminate H.
Qed.

Lemma service_name_falls_back_to_default_witness :
  configure_resource
    {| OTEL_SERVICE_NAME := Some "checkout";
       OOM_CHUNK_MB := None; OOM_SLEEP_SECONDS := None |} = "checkout".
Proof.
  apply (service_name_falls_back_to_default
           {| OTEL_SERVICE_NAME := Some "checkout";
              OOM_CHUNK_MB := None; OOM_SLEEP_SECONDS := None |}).
  - reflexivity.
  - discriminate.
Defined.

(** X6. [main] sets the pipelines up before the ramp does anything: the
    first calls of every run are the configuration of tracing, logging,
    metrics and system metrics, in this order, the first three with the same
    service name; the opening of the span and the ramp's first record come
    only after them. *)
Theorem main_bootstraps_before_ramp host (env : Env) (fuel : nat) (st : State) :
  exists rest,
    emitted st (snd (main host env fuel st)) =
    [Configured "tracing" (configure_resource env);
     Configured "logging" (configure_resource env);
     Configured "metrics" (configure_resource env);
     Configured "system_metrics" ""]
    ++ preamble (Some cap_bytes) (chunk_mb_of env) (sleep_seconds_of env)
    ++ rest.
Proof.
  pose proof (main_emitted host env fuel st) as Hem. cbn zeta in Hem.
  rewrite Hem. unfold ramp_of_main.
  destruct (ramp_emitted host (chunk_mb_of env) (sleep_seconds_of env) fuel
              (add_events st (bootstrap_events env)))
    as (k & b & _ & _ & _ & Hramp & _ & _).
  rewrite Hramp. unfold bootstrap_events.
  rewrite <- !app_assoc. eexists. reflexivity.
Qed.

Lemma chunk_log_count host chunk_mb secs fuel st :
  let p := ramp_memory_and_fail host chunk_mb secs fuel st in
  count is_chunk_log (emitted st (snd p)) = Z.to_nat (i (snd p)) /\
  count is_error_log (emitted st (snd p)) =
    match fst p with Raise e => if is_MemoryError e then 1%nat else O | _ => O end.
Proof.
  intros p. unfold p. clear p.
  destruct (ramp_emitted host chunk_mb secs fuel st)
    as (k & b & _ & Hi & _ & Hem & _ & _).
  rewrite Hem, Hi, Nat2Z.id, preamble_cap, !count_app.
  rewrite chunk_logs_ramp_events, (count_ramp_events _ _ _ _ O) by reflexivity.
  split; (destruct (fst _) as [u|e|]; [| destruct e |]); destruct b; cbn; lia.
Qed.

Lemma shutdown_events_count host p :
  (forall c o, p (Shutdown c o) = false) ->
  count p (shutdown_events host shutdown_order) = O.
Proof.
  intros Hp. unfold shutdown_events.
  induction (attempted host shutdown_order) as [|c l IH]; [reflexivity|].
  cbn [map]. unfold count in *. cbn [filter]. now rewrite Hp.
Qed.

(** X7. A whole run of [main] with a chunk size of 1 MB or more and a
    sleep interval that [time.sleep] accepts, on a host that grants the
    chunks, does not interrupt and shuts down without fault: once
    [ceil (400 / chunk_mb)] iterations have run, [main] has left through
    [sys.exit(1)], has emitted that many "Allocated chunk" records and one
    record at error severity, and has shut the five components down in
    order. *)
Theorem main_fails_at_the_cap host (env : Env) (fuel : nat) (st : State) :
  1 <= chunk_mb_of env ->
  sleep_rejects (sleep_seconds_of env) = None ->
  calm host ->
  roomy host (chunk_mb_of env * 1024 * 1024) cap_bytes ->
  no_fault host ->
  (Z.to_nat (ceil_div 400 (chunk_mb_of env)) <= fuel)%nat ->
  let p := main host env fuel st in
  fst p = Raise (SystemExit 1) /\
  exit_status (fst p) = Some 1 /\
  count is_chunk_log (emitted st (snd p))
    = Z.to_nat (ceil_div 400 (chunk_mb_of env)) /\
  count is_error_log (emitted st (snd p)) = 1%nat /\
  shutdown_calls (emitted st (snd p)) = shutdown_order.
Proof.
  intros Hchunk Hsleep Hcalm Hroomy Hno Hfuel p. unfold p. clear p.
  set (s0 := add_events st (bootstrap_events env)).
  destruct (ramp_undisturbed host (chunk_mb_of env) (sleep_seconds_of env) s0
              Hchunk Hsleep Hcalm Hroomy fuel) as [_ Hfail].
  destruct (Hfail Hfuel) as [Hr Hi]. clear Hfail.
  pose proof (main_result host env fuel st) as Hres.
  pose proof (main_emitted host env fuel st) as Hem.
  pose proof (chunk_log_count host (chunk_mb_of env) (sleep_seconds_of env)
                fuel s0) as [Hlogs Herr].
  pose proof (main_shutdown_calls host env fuel st) as Hcalls.
  cbn zeta in *. unfold ramp_of_main in *. fold s0 in Hres, Hem.
  rewrite Hr in *. cbn [is_MemoryError] in *.
  rewrite (existsb_no_fault host shutdown_order Hno) in Hres.
  rewrite Hres in *. cbn [exit_status].
  rewrite Hcalls, attempted_no_fault by exact Hno.
  rewrite Hem, !count_app, Hlogs, Herr, Hi.
  rewrite !shutdown_events_count by reflexivity.
  repeat split; cbn; lia.
Qed.

Lemma main_fails_at_the_cap_witness :
  fst (main quiet_host default_env 40 initial) = Raise (SystemExit 1) /\
  count is_chunk_log (emitted initial (snd (main quiet_host default_env 40 initial)))
  = 40%nat.
Proof.
  destruct (main_fails_at_the_cap quiet_host default_env 40 initial)
    as (Hr & _ & Hlogs & _).
  - vm_compute. discriminate.
  - reflexivity.
  - intros t. reflexivity.
  - split; [vm_compute; discriminate | intros held _; reflexivity].
  - intros c. reflexivity.
  - vm_compute. lia.
  - split; [exact Hr | exact Hlogs].
Defined.

(** X8. What is not a [MemoryError] is not handled anywhere: when the
    ramp leaves by any other exception (the [ValueError] of a negative
    chunk size or sleep interval, an interrupt), [main] still shuts the five
    components down in order and then lets that same exception through,
    with no [sys.exit] and no record at error severity. *)
Theorem other_exceptions_pass_through_main
    host (env : Env) (fuel : nat) (st : State) (e : exn) :
  fst (ramp_of_main host env fuel (add_events st (bootstrap_events env)))
    = Raise e ->
  is_MemoryError e = false ->
  no_fault host ->
  let p := main host env fuel st in
  fst p = Raise e /\
  shutdown_calls (emitted st (snd p)) = shutdown_order /\
  count is_error_log (emitted st (snd p)) = O.
Proof.
  intros Hr Hmem Hno p. unfold p. clear p.
  pose proof (main_result host env fuel st) as Hres.
  pose proof (main_emitted host env fuel st) as Hem.
  pose proof (chunk_log_count host (chunk_mb_of env) (sleep_seconds_of env)
                fuel (add_events st (bootstrap_events env))) as [_ Herr].
  pose proof (main_shutdown_calls host env fuel st) as Hcalls.
  cbn zeta in *. unfold ramp_of_main in *.
  rewrite Hr in *. rewrite Hmem in *.
  rewrite (existsb_no_fault host shutdown_order Hno) in Hres.
  rewrite Hres in *.
  rewrite Hcalls, attempted_no_fault by exact Hno.
  rewrite Hem, !count_app, Herr.
  rewrite !shutdown_events_count by reflexivity.
  repeat split.
Qed.

Lemma other_exceptions_pass_through_main_witness :
  fst (main quiet_host (env_with (-5) half) 3 initial)
    = Raise (ValueError "negative count") /\
  shutdown_calls
    (emitted initial (snd (main quiet_host (env_with (-5) half) 3 initial)))
  = shutdown_order.
Proof.
  destruct (other_exceptions_pass_through_main quiet_host (env_with (-5) half)
              3 initial (ValueError "negative count"))
    as (Hr & Hcalls & _).
  - vm_compute. reflexivity.
  - reflexivity.
  - intros c. reflexivity.
  - split; [exact Hr | exact Hcalls].
Defined.

(** ** Without a cap *)

(** X9. The cap test is guarded by the truth value of [max_bytes]: with
    no cap ([None]) or a cap of 0 the loop never raises on its own.  On a
    host that grants every chunk and does not interrupt, with a sleep
    interval that [time.sleep] accepts, it is still going after any number
    of iterations, one chunk, one record and one sleep per iteration. *)
Theorem uncapped_loop_runs_on
    host (max_bytes : option Z) (chunk_mb chunk_bytes : Z) (secs : float) :
  truthy_opt max_bytes = false ->
  0 <= chunk_bytes <= sys_maxsize host ->
  (forall held, mem_grant host held chunk_bytes = true) ->
  sleep_rejects secs = None ->
  calm host ->
  forall fuel st,
    ramp_loop host max_bytes chunk_mb chunk_bytes secs fuel st =
    (Running,
     steady chunk_mb chunk_bytes secs fuel
       (mkState (allocations st) 0 (trace st))).
Proof.
  intros Hcap Hsize Hgrant Hsleep Hcalm fuel st.
  change (ramp_loop host max_bytes chunk_mb chunk_bytes secs fuel st)
    with (while_true fuel
            (ramp_iteration host max_bytes chunk_mb chunk_bytes secs)
            (mkState (allocations st) 0 (trace st))).
  generalize (mkState (allocations st) 0 (trace st)). clear st.
  induction fuel as [|fuel IH]; intros st.
  - cbn [while_true]. unfold steady. cbn [repeat ramp_events].
    rewrite !app_nil_r, Z.add_0_r. now destruct st.
  - cbn [while_true]. unfold bind. rewrite ramp_iteration_eq.
    unfold iteration_outcome, bytearray.
    replace (chunk_bytes <? 0) with false by (symmetry; apply Z.ltb_ge; lia).
    replace (sys_maxsize host <? chunk_bytes) with false
      by (symmetry; apply Z.ltb_ge; lia).
    rewrite Hgrant.
    assert (Hstep : time_sleep host secs (grown chunk_mb chunk_bytes st)
                    = (Ok tt, steady chunk_mb chunk_bytes secs 1 st)).
    { unfold time_sleep. rewrite Hsleep, Hcalm.
      unfold emit, steady, grown.
      cbn [allocations i trace repeat ramp_events iteration_events].
      change (Z.of_nat 1) with 1.
      now rewrite app_nil_r, <- !app_assoc. }
    destruct max_bytes as [m|].
    + cbn [truthy_opt] in Hcap. rewrite Hcap. cbn [andb].
      rewrite Hstep, IH. now rewrite steady_succ.
    + rewrite Hstep, IH. now rewrite steady_succ.
Qed.

Lemma uncapped_loop_runs_on_witness :
  ramp_loop quiet_host None 10 (10 * 1024 * 1024) half 50 initial =
  (Running, steady 10 (10 * 1024 * 1024) half 50 (mkState [] 0 [])).
Proof.
  apply (uncapped_loop_runs_on quiet_host None 10 (10 * 1024 * 1024) half).
  - reflexivity.
  - split; vm_compute; discriminate.
  - intros held. reflexivity.
  - reflexivity.
  - intros t. reflexivity.
Defined.

(** ** When the host refuses a chunk *)


